(** * edge-core-js: the PIN v2 credential manager and the login-server gate

    A shallow embedding of [src/core/login/pin2.js] and of the server
    validation of [src/core/root.js], followed by the properties the
    specification states about them.

    Conventions of the embedding:
    - a [Uint8Array] is a [list byte], a JS string a [string];
    - a field that may be [undefined] is an [option];
    - an [async] function returns its settled promise: [Ok v] when the
      promise fulfils with [v], [Throw e] when it rejects with [e] (a
      [throw] inside an [async] body is such a rejection);
    - everything the code reaches through [io] or the network (entropy,
      the login server, the disk) lives in one ambient [World] that the
      effectful functions thread explicitly;
    - modules the two files import but that are not part of the verified
      sources are interfaces ([Class]es) whose members keep the imported
      names. *)

From stdpp Require Import base option list strings gmap.
From Stdlib Require Import Strings.Byte Ascii String.

Set Default Proof Using "Type".
Local Open Scope string_scope.
Local Open Scope list_scope.

(** ** JavaScript values *)

Definition bytes := list byte.

(** [new Error(message)] and the engine's own [TypeError] (whose message
    differs between engines and is left out). *)
Inductive JsError :=
  | Error (message : string)
  | TypeError.

Inductive Result (A : Type) :=
  | Ok (value : A)
  | Throw (e : JsError).
Arguments Ok {A} value.
Arguments Throw {A} e.

(** [x != null] and [x == null]. *)
Definition not_null {A} (x : option A) : bool :=
  match x with Some _ => true | None => false end.

Definition is_null {A} (x : option A) : bool := negb (not_null x).

Definition is_ok {A} (r : Result A) : bool :=
  match r with Ok _ => true | Throw _ => false end.

(** A key of a partial object ([{ ...node, ...patch }]): either the key is
    not written in the literal, or it is written with a value, which may
    be [undefined]. *)
Inductive PatchField (A : Type) :=
  | Keep
  | Assign (v : option A).
Arguments Keep {A}.
Arguments Assign {A} v.

(** ** Login hierarchies

    [LoginStash] and [LoginTree] are both [{ ...fields, children: T[] }];
    a node is its own fields together with the list of its children. *)

Unset Elimination Schemes.
Inductive Tree (A : Type) :=
  | Node (fields : A) (children : list (Tree A)).
Set Elimination Schemes.
Arguments Node {A} fields children.

Definition fields {A} (t : Tree A) : A :=
  match t with Node f _ => f end.

Definition children {A} (t : Tree A) : list (Tree A) :=
  match t with Node _ cs => cs end.

(** The nodes of a hierarchy, parent before children, children left to
    right. *)
Fixpoint preorder {A} (t : Tree A) : list (Tree A) :=
  match t with
  | Node _ cs => t :: flat_map preorder cs
  end.

(** Modelled from the spec: [searchTree] of [login.js], which is imported
    by [pin2.js] but is not among the verified sources.  "pre-order
    traversal (visit node, then children left-to-right); returns first
    match or none". *)
Fixpoint searchTree {A} (predicate : Tree A -> bool) (node : Tree A)
  : option (Tree A) :=
  if predicate node then Some node
  else
    match node with
    | Node _ cs =>
        (fix each (cs : list (Tree A)) : option (Tree A) :=
           match cs with
           | [] => None
           | child :: rest =>
               match searchTree predicate child with
               | Some out => Some out
               | None => each rest
               end
           end) cs
    end.

(** ** Collaborators of [pin2.js] *)

(** [util/crypto/hashes.js], [util/encoding.js] and the pure half of
    [util/crypto/crypto.js]. *)
Class Crypto := {
  EdgeBox : Type;
  decrypt : EdgeBox -> bytes -> Result bytes;
  hmacSha256 : bytes -> bytes -> bytes;
  utf8_parse : string -> bytes
}.

(** The [io] object.  [encrypt(io, data, key)] draws its nonce from [io],
    so it acts on the world like [io.random] does. *)
Class Io `{Crypto} := {
  World : Type;
  random : nat -> World -> bytes * World;
  encrypt : bytes -> bytes -> World -> EdgeBox * World
}.

(** Computations that act on the world. *)
Definition M `{Io} (A : Type) : Type := World -> A * World.

Definition ret `{Io} {A} (a : A) : M A := fun w => (a, w).

Definition bind `{Io} {A B} (m : M A) (k : A -> M B) : M B :=
  fun w => let (a, w') := m w in k a w'.

Notation "x <- m ;; k" := (bind m (fun x => k))
  (at level 62, m at next level, right associativity).

Fixpoint mapM `{Io} {A B} (f : A -> M B) (l : list A) : M (list B) :=
  match l with
  | [] => ret []
  | a :: l' => b <- f a;; bs <- mapM f l';; ret (b :: bs)
  end.

Section Pin2.
Context `{!Crypto} `{!Io}.

(** *** [login-stash.js], [login-types.js] *)

(** Modelled from the spec: the node of [LoginStash] ([login-stash.js]),
    "loginId, appId, username, pin2Key, pin2TextBox, children"; these are
    the fields [pin2.js] reads and patches. *)
Record StashFields := {
  stash_loginId : string;
  stash_appId : string;
  stash_username : option string;
  stash_pin2Key : option bytes;
  stash_pin2TextBox : option EdgeBox
}.

Definition LoginStash := Tree StashFields.

(** Modelled from the spec: the node of [LoginTree] ([login-types.js]),
    which "mirrors the stash but additionally carries" [loginKey] and
    [pin]. *)
Record LoginFields := {
  login_loginId : string;
  login_appId : string;
  login_username : option string;
  login_loginKey : bytes;
  login_pin : option string;
  login_pin2Key : option bytes
}.

Definition LoginTree := Tree LoginFields.

(** The [stash] objects that [pin2.js] puts in a kit name these two
    keys, the [login] objects those two. *)
Record StashPatch := {
  sp_pin2Key : PatchField bytes;
  sp_pin2TextBox : PatchField EdgeBox
}.

Record LoginPatch := {
  lp_pin2Key : PatchField bytes;
  lp_pin : PatchField string
}.

(** *** [server-types.js], [server-cleaners.js] *)

(** Modelled from the spec: the body of [POST /v2/login],
    "{ pin2Id: bytes, pin2Auth: bytes, otp?: string }", and its reply,
    "{ pin2Box: Box }". *)
Record LoginRequestBody := {
  req_pin2Id : option bytes;
  req_pin2Auth : option bytes;
  req_otp : option string
}.

Record LoginPayload := {
  reply_pin2Box : option EdgeBox
}.

(** The object literal that [makeChangePin2Kit] hands to the
    uncleaner. *)
Record ChangePin2Payload := {
  cp_pin2Id : option bytes;
  cp_pin2Auth : option bytes;
  cp_pin2Box : option EdgeBox;
  cp_pin2KeyBox : option EdgeBox;
  cp_pin2TextBox : EdgeBox
}.

(** The wire forms of a byte string and of a box ([asBase64] and
    [asEdgeBox] read the other way). *)
Class ServerCleaners := {
  JsonBox : Type;
  wasBase64 : bytes -> string;
  wasEdgeBox : EdgeBox -> JsonBox
}.
Context `{!ServerCleaners}.

(** The JSON body of [POST /v2/login/pin2]: every key may be missing. *)
Record ChangePin2Json := {
  json_pin2Id : option string;
  json_pin2Auth : option string;
  json_pin2Box : option JsonBox;
  json_pin2KeyBox : option JsonBox;
  json_pin2TextBox : option JsonBox
}.

(** Modelled from the spec: [asChangePin2Payload] of
    [types/server-cleaners.js], whose uncleaner [pin2.js] builds at its
    line 19.  The body is "{ pin2Id, pin2Auth, pin2Box, pin2KeyBox,
    pin2TextBox }", "all fields present" to enable and "all fields absent
    except pin2TextBox" to disable: the uncleaner re-encodes each key that
    is present and leaves out each key that is [undefined]. *)
Definition wasChangePin2Payload (clean : ChangePin2Payload) : ChangePin2Json :=
  {| json_pin2Id := wasBase64 <$> cp_pin2Id clean;
     json_pin2Auth := wasBase64 <$> cp_pin2Auth clean;
     json_pin2Box := wasEdgeBox <$> cp_pin2Box clean;
     json_pin2KeyBox := wasEdgeBox <$> cp_pin2KeyBox clean;
     json_pin2TextBox := Some (wasEdgeBox (cp_pin2TextBox clean)) |}.

(** [LoginKit] of [login-types.js], with the [server] bodies [pin2.js]
    builds. *)
Record LoginKit := {
  kit_serverMethod : option string;
  kit_serverPath : string;
  kit_server : option ChangePin2Json;
  kit_stash : StashPatch;
  kit_login : LoginPatch;
  kit_loginId : string
}.

(** *** [root-pixie.js], [login-selectors.js], [otp.js], [types.js] *)

(** An entry of [ai.props.state.accounts]. *)
Record AccountState := {
  acct_loginTree : LoginTree;
  acct_username : string
}.

Class LoginEnv := {
  ApiInput : Type;
  accounts : ApiInput -> gmap string AccountState;
  EdgeAccountOptions : Type;
  Json : Type;
  fixUsername : string -> string;
  getStash : ApiInput -> string -> LoginStash;
  getLoginOtp : LoginTree -> option string
}.
Context `{!LoginEnv}.

(** *** [login.js], [login-fetch.js]: the calls that reach the server *)

Class LoginNet := {
  loginFetch :
    ApiInput -> string -> string -> LoginRequestBody -> M (Result Json);
  serverLogin :
    ApiInput -> LoginStash -> LoginStash -> EdgeAccountOptions ->
    LoginRequestBody -> (LoginPayload -> Result bytes) ->
    M (Result LoginTree);
  applyKits : ApiInput -> LoginTree -> list LoginKit -> M (Result unit)
}.
Context `{!LoginNet}.

(** ** [pin2.js] *)

Definition pin2Id (pin2Key : bytes) (username : string) : bytes :=
  let data := utf8_parse (fixUsername username) in
  hmacSha256 data pin2Key.

Definition pin2Auth (pin2Key : bytes) (pin : string) : bytes :=
  hmacSha256 (utf8_parse pin) pin2Key.

Definition findPin2Stash (stashTree : LoginStash) (appId : string)
  : option LoginStash :=
  match stash_pin2Key (fields stashTree) with
  | Some _ => Some stashTree
  | None =>
      let stash :=
        searchTree (fun stash => String.eqb (stash_appId (fields stash)) appId)
                   stashTree in
      match stash with
      | Some stash =>
          match stash_pin2Key (fields stash) with
          | Some _ => Some stash
          | None => None
          end
      | None => None
      end
  end.

Definition loginPin2 (ai : ApiInput) (appId username pin : string)
    (opts : EdgeAccountOptions) : M (Result LoginTree) :=
  let stashTree := getStash ai username in
  match findPin2Stash stashTree appId with
  | None =>
      ret (Throw (Error
        "PIN login is not enabled for this account on this device"))
  | Some stash =>
      match stash_pin2Key (fields stash) with
      | None =>
          ret (Throw (Error
            "PIN login is not enabled for this account on this device"))
      | Some pin2Key =>
          let request :=
            {| req_pin2Id := Some (pin2Id pin2Key username);
               req_pin2Auth := Some (pin2Auth pin2Key pin);
               req_otp := None |} in
          serverLogin ai stashTree stash opts request (fun reply =>
            match reply_pin2Box reply with
            | None => Throw (Error "Missing data for PIN v2 login")
            | Some pin2Box => decrypt pin2Box pin2Key
            end)
      end
  end.

Definition makeChangePin2Kit (login : LoginTree) (username pin : string)
    (enableLogin : bool) : M LoginKit :=
  pin2TextBox <- encrypt (utf8_parse pin) (login_loginKey (fields login));;
  if enableLogin then
    pin2Key <- match login_pin2Key (fields login) with
               | Some pin2Key => ret pin2Key
               | None => random 32
               end;;
    pin2Box <- encrypt (login_loginKey (fields login)) pin2Key;;
    pin2KeyBox <- encrypt pin2Key (login_loginKey (fields login));;
    ret {| kit_serverMethod := None;
           kit_serverPath := "/v2/login/pin2";
           kit_server := Some (wasChangePin2Payload
             {| cp_pin2Id := Some (pin2Id pin2Key username);
                cp_pin2Auth := Some (pin2Auth pin2Key pin);
                cp_pin2Box := Some pin2Box;
                cp_pin2KeyBox := Some pin2KeyBox;
                cp_pin2TextBox := pin2TextBox |});
           kit_stash := {| sp_pin2Key := Assign (Some pin2Key);
                           sp_pin2TextBox := Assign (Some pin2TextBox) |};
           kit_login := {| lp_pin2Key := Assign (Some pin2Key);
                           lp_pin := Assign (Some pin) |};
           kit_loginId := login_loginId (fields login) |}
  else
    ret {| kit_serverMethod := None;
           kit_serverPath := "/v2/login/pin2";
           kit_server := Some (wasChangePin2Payload
             {| cp_pin2Id := None;
                cp_pin2Auth := None;
                cp_pin2Box := None;
                cp_pin2KeyBox := None;
                cp_pin2TextBox := pin2TextBox |});
           kit_stash := {| sp_pin2Key := Assign None;
                           sp_pin2TextBox := Assign (Some pin2TextBox) |};
           kit_login := {| lp_pin2Key := Assign None;
                           lp_pin := Assign (Some pin) |};
           kit_loginId := login_loginId (fields login) |}.

Fixpoint makeChangePin2Kits (loginTree : LoginTree) (username pin : string)
    (enableLogin : bool) : M (list LoginKit) :=
  first <- makeChangePin2Kit loginTree username pin enableLogin;;
  match loginTree with
  | Node _ cs =>
      rest <- (fix each (cs : list LoginTree) : M (list LoginKit) :=
                 match cs with
                 | [] => ret []
                 | child :: cs' =>
                     kits <- makeChangePin2Kits child username pin enableLogin;;
                     more <- each cs';;
                     ret (kits ++ more)
                 end) cs;;
      ret (first :: rest)
  end.

Definition makeDeletePin2Kit (login : LoginTree) : LoginKit :=
  {| kit_serverMethod := Some "DELETE";
     kit_serverPath := "/v2/login/pin2";
     kit_server := None;
     kit_stash := {| sp_pin2Key := Assign None; sp_pin2TextBox := Keep |};
     kit_login := {| lp_pin2Key := Assign None; lp_pin := Keep |};
     kit_loginId := login_loginId (fields login) |}.

Fixpoint makeDeletePin2Kits (loginTree : LoginTree) : list LoginKit :=
  match loginTree with
  | Node _ cs =>
      makeDeletePin2Kit loginTree ::
      (fix each (cs : list LoginTree) : list LoginKit :=
         match cs with
         | [] => []
         | child :: cs' => makeDeletePin2Kits child ++ each cs'
         end) cs
  end.

Definition changePin (ai : ApiInput) (accountId : string)
    (pin : option string) (enableLogin : option bool) : M (Result unit) :=
  match accounts ai !! accountId with
  | None => ret (Throw TypeError)
  | Some account =>
      let loginTree := acct_loginTree account in
      let username := acct_username account in
      let enableLogin :=
        match enableLogin with
        | Some enableLogin => enableLogin
        | None =>
            not_null (login_pin2Key (fields loginTree)) ||
            (not_null pin && is_null (login_pin (fields loginTree)))
        end in
      let pin :=
        match pin with
        | Some pin => Some pin
        | None => login_pin (fields loginTree)
        end in
      match pin with
      | None =>
          if enableLogin then
            ret (Throw (Error
              "Please change your PIN in the settings area above before enabling."))
          else applyKits ai loginTree (makeDeletePin2Kits loginTree)
      | Some pin =>
          kits <- makeChangePin2Kits loginTree username pin enableLogin;;
          applyKits ai loginTree kits
      end
  end.

Definition checkPin2 (ai : ApiInput) (login : LoginTree) (pin : string)
  : M (Result bool) :=
  let appId := login_appId (fields login) in
  match login_username (fields login) with
  | None => ret (Ok false)
  | Some username =>
      let stashTree := getStash ai username in
      match findPin2Stash stashTree appId with
      | None => ret (Throw (Error "No PIN set locally for this account"))
      | Some stash =>
          match stash_pin2Key (fields stash) with
          | None => ret (Throw (Error "No PIN set locally for this account"))
          | Some pin2Key =>
              let request :=
                {| req_pin2Id := Some (pin2Id pin2Key username);
                   req_pin2Auth := Some (pin2Auth pin2Key pin);
                   req_otp := getLoginOtp login |} in
              settled <- loginFetch ai "POST" "/v2/login" request;;
              match settled with
              | Ok good => ret (Ok true)
              | Throw bad => ret (Ok false)
              end
          end
      end
  end.

Definition deletePin (ai : ApiInput) (accountId : string) : M (Result unit) :=
  match accounts ai !! accountId with
  | None => ret (Throw TypeError)
  | Some account =>
      let loginTree := acct_loginTree account in
      let kits := makeDeletePin2Kits loginTree in
      applyKits ai loginTree kits
  end.

End Pin2.

(** ** The kit engine

    [applyKits] lives in [login.js]; [pin2.js] only calls it.  The engine
    below follows section 4.2 of the specification, over the three stores
    a kit targets. *)

Module KitEngine.
Section Engine.
Context `{!Crypto} `{!ServerCleaners}.

(** Modelled from the spec: the request [applyKits] of [login.js] issues
    for one kit, "method + path + body, or an explicit deletion with no
    body", for the node [loginId]. *)
Record ServerRequest := {
  sr_method : option string;
  sr_path : string;
  sr_loginId : string;
  sr_body : option ChangePin2Json
}.

(** Modelled from the spec: the login server, as its answer to a request
    given the requests it has received so far: [None] when it accepts,
    [Some e] when the request fails with [e]. *)
Variable respond : list ServerRequest -> ServerRequest -> option JsError.

(** Modelled from the spec: the "three independent stores" of
    [applyKits]: the remote server (seen as the requests it received), the
    persisted stash and the in-memory tree. *)
Record Stores := {
  sent : list ServerRequest;
  stashTree : LoginStash;
  loginTree : LoginTree
}.

(** Modelled from the spec: the request of a kit is its own method, path
    and body. *)
Definition kitRequest (kit : LoginKit) : ServerRequest :=
  {| sr_method := kit_serverMethod kit;
     sr_path := kit_serverPath kit;
     sr_loginId := kit_loginId kit;
     sr_body := kit_server kit |}.

(** Modelled from the spec: "partial field sets merged (not replaced)
    into the existing node", one key at a time. *)
Definition patchField {A} (p : PatchField A) (old : option A) : option A :=
  match p with
  | Keep => old
  | Assign v => v
  end.

(** Modelled from the spec: "merge stashPatch into the persisted stash
    node"; the keys a patch cannot name stay. *)
Definition mergeStash (p : StashPatch) (s : StashFields) : StashFields :=
  {| stash_loginId := stash_loginId s;
     stash_appId := stash_appId s;
     stash_username := stash_username s;
     stash_pin2Key := patchField (sp_pin2Key p) (stash_pin2Key s);
     stash_pin2TextBox := patchField (sp_pin2TextBox p) (stash_pin2TextBox s) |}.

(** Modelled from the spec: "merge treePatch into the in-memory tree
    node". *)
Definition mergeLogin (p : LoginPatch) (l : LoginFields) : LoginFields :=
  {| login_loginId := login_loginId l;
     login_appId := login_appId l;
     login_username := login_username l;
     login_loginKey := login_loginKey l;
     login_pin := patchField (lp_pin p) (login_pin l);
     login_pin2Key := patchField (lp_pin2Key p) (login_pin2Key l) |}.

(** Modelled from the spec: the merge of a patch "into the [...] node
    matching loginId" of a hierarchy. *)
Fixpoint updateTree {A} (predicate : A -> bool) (update : A -> A)
    (t : Tree A) : Tree A :=
  match t with
  | Node f cs =>
      Node (if predicate f then update f else f)
           (map (updateTree predicate update) cs)
  end.

(** Modelled from the spec: the stash once the kit's [stashPatch] is
    merged into the node with the kit's [loginId]. *)
Definition commitStash (kit : LoginKit) (stash : LoginStash) : LoginStash :=
  updateTree (fun s => String.eqb (stash_loginId s) (kit_loginId kit))
             (mergeStash (kit_stash kit)) stash.

(** Modelled from the spec: the tree once the kit's [treePatch] is merged
    into the node with the kit's [loginId]. *)
Definition commitLogin (kit : LoginKit) (tree : LoginTree) : LoginTree :=
  updateTree (fun l => String.eqb (login_loginId l) (kit_loginId kit))
             (mergeLogin (kit_login kit)) tree.

(** Modelled from the spec: one round of [applyKits] of [login.js].  "For
    each kit: issue the server request [...]. On request failure: abort
    the whole operation and signal the failure [...]. On success: merge
    stashPatch into the persisted stash node matching loginId and persist
    it; merge treePatch into the in-memory tree node matching loginId." *)
Definition applyKit (kit : LoginKit) (st : Stores) : Result unit * Stores :=
  let request := kitRequest kit in
  match respond (sent st) request with
  | Some e =>
      (Throw e,
       {| sent := sent st ++ [request];
          stashTree := stashTree st;
          loginTree := loginTree st |})
  | None =>
      (Ok tt,
       {| sent := sent st ++ [request];
          stashTree := commitStash kit (stashTree st);
          loginTree := commitLogin kit (loginTree st) |})
  end.

(** Modelled from the spec: [applyKits] of [login.js], "iterates kits in
    order"; the first failure ends the loop. *)
Fixpoint applyKits (kits : list LoginKit) (st : Stores)
  : Result unit * Stores :=
  match kits with
  | [] => (Ok tt, st)
  | kit :: rest =>
      match applyKit kit st with
      | (Ok _, st') => applyKits rest st'
      | (Throw e, st') => (Throw e, st')
      end
  end.

End Engine.
End KitEngine.

(** ** [root.js]: which login servers are accepted *)

(** Regular expressions as far as [validateServer] needs them, matched by
    derivatives.  [RegExp.prototype.test] on a pattern anchored by [^] and
    [$] (without the multiline flag) accepts exactly the strings the
    pattern matches as a whole. *)
Module Re.

Inductive regex :=
  | Never
  | Eps
  | Chr (c : ascii)
  | Set_ (member : ascii -> bool)
  | Cat (r1 r2 : regex)
  | Alt (r1 r2 : regex)
  | Star (r : regex).

Definition Plus (r : regex) : regex := Cat r (Star r).
Definition Opt (r : regex) : regex := Alt r Eps.

Fixpoint Str (s : list ascii) : regex :=
  match s with
  | [] => Eps
  | c :: s' => Cat (Chr c) (Str s')
  end.

Fixpoint nullable (r : regex) : bool :=
  match r with
  | Never => false
  | Eps => true
  | Chr _ => false
  | Set_ _ => false
  | Cat r1 r2 => nullable r1 && nullable r2
  | Alt r1 r2 => nullable r1 || nullable r2
  | Star _ => true
  end.

Fixpoint deriv (a : ascii) (r : regex) : regex :=
  match r with
  | Never => Never
  | Eps => Never
  | Chr c => if Ascii.eqb a c then Eps else Never
  | Set_ member => if member a then Eps else Never
  | Cat r1 r2 =>
      if nullable r1 then Alt (Cat (deriv a r1) r2) (deriv a r2)
      else Cat (deriv a r1) r2
  | Alt r1 r2 => Alt (deriv a r1) (deriv a r2)
  | Star r' => Cat (deriv a r') (Star r')
  end.

Fixpoint matches (r : regex) (s : list ascii) : bool :=
  match s with
  | [] => nullable r
  | a :: s' => matches (deriv a r) s'
  end.

(** [/^r$/.test(s)] *)
Definition test (r : regex) (s : string) : bool :=
  matches r (list_ascii_of_string s).

(** The strings a pattern denotes. *)
Inductive Lang : regex -> list ascii -> Prop :=
  | LEps : Lang Eps []
  | LChr c : Lang (Chr c) [c]
  | LSet member c : member c = true -> Lang (Set_ member) [c]
  | LCat r1 r2 s1 s2 : Lang r1 s1 -> Lang r2 s2 -> Lang (Cat r1 r2) (s1 ++ s2)
  | LAltL r1 r2 s : Lang r1 s -> Lang (Alt r1 r2) s
  | LAltR r1 r2 s : Lang r2 s -> Lang (Alt r1 r2) s
  | LStarNil r : Lang (Star r) []
  | LStarApp r s1 s2 : Lang r s1 -> Lang (Star r) s2 -> Lang (Star r) (s1 ++ s2).

End Re.

(** The part of a parsed [URL] that [validateServer] reads.  Both are
    ASCII once parsed. *)
Record URL := {
  protocol : string;
  hostname : string
}.

(** [EdgeContextOptions] of [types.js], as far as [makeContext] reads it
    before it validates the server. *)
Record EdgeContextOptions := {
  opt_apiKey : option string;
  opt_appId : option string;
  opt_authServer : option string
}.

(** What the platform and the rest of the core give [root.js]: the
    [URL] constructor (it throws on a string that is no URL), and the
    remainder of [makeContext] after the server has been validated (the
    store, the log, the disk loads and the worker tree, lines 55 to
    138), run on the options as resolved. *)
Class RootEnv := {
  RootWorld : Type;
  PluginIos : Type;
  LogBackend : Type;
  EdgeContext : Type;
  new_URL : string -> Result URL;
  startCore :
    PluginIos -> LogBackend -> string -> string -> string ->
    RootWorld -> Result EdgeContext * RootWorld
}.

Section Root.
Context `{!RootEnv}.

Definition is_word_or_hyphen (c : ascii) : bool :=
  let n := nat_of_ascii c in
  (Nat.leb 65 n && Nat.leb n 90) ||
  (Nat.leb 97 n && Nat.leb n 122) ||
  (Nat.leb 48 n && Nat.leb n 57) ||
  Nat.eqb n 95 || Nat.eqb n 45.

(** [/^([A-Za-z0-9_-]+\.)*edge(test)?\.app$/] *)
Definition edge_host_pattern : Re.regex :=
  Re.Cat
    (Re.Star (Re.Cat (Re.Plus (Re.Set_ is_word_or_hyphen)) (Re.Chr ".")))
    (Re.Cat (Re.Str (list_ascii_of_string "edge"))
       (Re.Cat (Re.Opt (Re.Str (list_ascii_of_string "test")))
          (Re.Cat (Re.Chr ".") (Re.Str (list_ascii_of_string "app"))))).

Definition validateServer (server : string) : Result unit :=
  match new_URL server with
  | Throw e => Throw e
  | Ok url =>
      let reject :=
        Throw (Error
          ("Only *.edge.app or localhost are valid login domain names, not "
             +:+ hostname url)) in
      let if_https :=
        if String.eqb (protocol url) "https:" then
          if String.eqb (hostname url) "localhost" then Ok tt
          else if Re.test edge_host_pattern (hostname url) then Ok tt
          else reject
        else reject in
      if String.eqb (protocol url) "http:" then
        if String.eqb (hostname url) "localhost" then Ok tt
        else if_https
      else if_https
  end.

Definition makeContext (ios : PluginIos) (logBackend : LogBackend)
    (opts : EdgeContextOptions) (w : RootWorld)
  : Result EdgeContext * RootWorld :=
  let appId := default "" (opt_appId opts) in
  let authServer := default "https://login.edge.app/api" (opt_authServer opts) in
  match opt_apiKey opts with
  | None => (Throw (Error "No API key provided"), w)
  | Some apiKey =>
      match validateServer authServer with
      | Throw e => (Throw e, w)
      | Ok _ => startCore ios logBackend apiKey appId authServer w
      end
  end.

End Root.

(** ** The specification's wording, for comparison *)

(** [findLocalCredential] as the specification words it: "returns the
    root if it carries pin2Key; otherwise returns the first descendant
    (pre-order) whose appId matches and which carries pin2Key". *)
Definition findLocalCredential `{!Crypto} (stashTree : LoginStash)
    (appId : string) : option LoginStash :=
  if not_null (stash_pin2Key (fields stashTree)) then Some stashTree
  else
    find (fun node =>
            String.eqb (stash_appId (fields node)) appId &&
            not_null (stash_pin2Key (fields node)))
         (flat_map preorder (children stashTree)).

(** The error kinds of the specification are the messages the code
    throws. *)
Definition NotEnabled : JsError :=
  Error "PIN login is not enabled for this account on this device".

Definition MissingData : JsError :=
  Error "Missing data for PIN v2 login".

Definition PinRequiredToEnable : JsError :=
  Error "Please change your PIN in the settings area above before enabling.".

(** The defaults of the top-level policy as the specification words
    them: [enable] defaults to "already enabled, or a PIN was supplied
    and none exists yet", [pin] to "the tree's currently known
    plaintext". *)
Definition resolveEnable (loginTree : LoginTree) (pin : option string)
    (enableLogin : option bool) : bool :=
  match enableLogin with
  | Some enable => enable
  | None =>
      match login_pin2Key (fields loginTree), pin, login_pin (fields loginTree) with
      | Some _, _, _ => true
      | None, Some _, None => true
      | None, _, _ => false
      end
  end.

Definition resolvePin (loginTree : LoginTree) (pin : option string)
  : option string :=
  match pin with
  | Some supplied => Some supplied
  | None => login_pin (fields loginTree)
  end.

(** A network on which nothing succeeds, with an error of its own. *)
Definition unreachable `{!Crypto} `{!Io} `{!ServerCleaners} `{!LoginEnv}
  : LoginNet :=
  {| loginFetch := fun _ _ _ _ w => (Throw TypeError, w);
     serverLogin := fun _ _ _ _ _ _ w => (Throw TypeError, w);
     applyKits := fun _ _ _ w => (Throw TypeError, w) |}.

(** The hostnames the specification names: zero or more labels, each a
    non-empty run of letters, digits, underscores and hyphens followed by
    a dot, and then [edge.app] or [edgetest.app]. *)
Definition is_edge_host (host : string) : Prop :=
  exists (labels : list (list ascii)) (base : string),
    Forall (fun label =>
              label <> [] /\ forallb is_word_or_hyphen label = true) labels
    /\ (base = "edge.app" \/ base = "edgetest.app")
    /\ list_ascii_of_string host =
       List.concat (map (fun label => label ++ ["."%char]) labels)
       ++ list_ascii_of_string base.

(** One node of [changeCredential] when enabling, as the specification
    words it: the credential key is the node's own, "reusing an existing
    key if the node already has one, otherwise generating a fresh random
    256-bit key", and the kit has "all five wrapped values" of its
    section 3: [pin2Id = HMAC(normalize(username), pin2Key)],
    [pin2Auth = HMAC(pin, pin2Key)], [pin2Box = Encrypt(loginKey, under
    pin2Key)], [pin2KeyBox = Encrypt(pin2Key, under loginKey)] and
    [pin2TextBox = Encrypt(pin, under loginKey)].  Every draw is written
    with the world it is made in and the world it leaves: the text box
    first, then the key (a draw of its own, only for a node without key),
    then the two boxes that need the key. *)
Definition enableNode `{!Crypto} `{!Io} `{!ServerCleaners} `{!LoginEnv}
    (username pin : string) (login : LoginTree) (w : World)
  : LoginKit * World :=
  let loginKey := login_loginKey (fields login) in
  let (pin2TextBox, w1) := encrypt (utf8_parse pin) loginKey w in
  let (pin2Key, w2) :=
    match login_pin2Key (fields login) with
    | Some existing => (existing, w1)
    | None => random 32 w1
    end in
  let (pin2Box, w3) := encrypt loginKey pin2Key w2 in
  let (pin2KeyBox, w4) := encrypt pin2Key loginKey w3 in
  ({| kit_serverMethod := None;
      kit_serverPath := "/v2/login/pin2";
      kit_server := Some
        {| json_pin2Id :=
             Some (wasBase64
                     (hmacSha256 (utf8_parse (fixUsername username)) pin2Key));
           json_pin2Auth :=
             Some (wasBase64 (hmacSha256 (utf8_parse pin) pin2Key));
           json_pin2Box := Some (wasEdgeBox pin2Box);
           json_pin2KeyBox := Some (wasEdgeBox pin2KeyBox);
           json_pin2TextBox := Some (wasEdgeBox pin2TextBox) |};
      kit_stash := {| sp_pin2Key := Assign (Some pin2Key);
                      sp_pin2TextBox := Assign (Some pin2TextBox) |};
      kit_login := {| lp_pin2Key := Assign (Some pin2Key);
                      lp_pin := Assign (Some pin) |};
      kit_loginId := login_loginId (fields login) |},
   w4).

(** [collectKits] as the specification words it, over the pre-order walk:
    one kit per node, "preserving parent-before-children order", each
    node built in the world the node before it left. *)
Fixpoint collectKits `{!Crypto} `{!Io} `{!ServerCleaners}
    (buildOne : LoginTree -> World -> LoginKit * World)
    (nodes : list LoginTree) (w : World) : list LoginKit * World :=
  match nodes with
  | [] => ([], w)
  | node :: rest =>
      let (kit, w1) := buildOne node w in
      let (kits, w2) := collectKits buildOne rest w1 in
      (kit :: kits, w2)
  end.

(** ** A small concrete world

    One instance of every interface above, small enough to run: boxes
    that keep the key next to the data, an entropy source that counts its
    draws, a login server that knows one PIN.  The examples below run the
    embedding on it. *)

Module Demo.

Definition lower (c : ascii) : ascii :=
  let n := nat_of_ascii c in
  if Nat.leb 65 n && Nat.leb n 90 then ascii_of_nat (n + 32) else c.

Fixpoint lowercase (s : string) : string :=
  match s with
  | EmptyString => EmptyString
  | String c s' => String (lower c) (lowercase s')
  end.

Fixpoint same_bytes (a b : bytes) : bool :=
  match a, b with
  | [], [] => true
  | x :: a', y :: b' => Byte.eqb x y && same_bytes a' b'
  | _, _ => false
  end.

Definition crypto : Crypto :=
  {| EdgeBox := nat * bytes * bytes;
     decrypt := fun box key =>
       let '(_, data, sealed_with) := box in
       if same_bytes sealed_with key then Ok data
       else Throw (Error "Invalid key");
     hmacSha256 := fun data key => key ++ data;
     utf8_parse := list_byte_of_string |}.
#[local] Existing Instance crypto.

Definition cleaners : ServerCleaners :=
  @Build_ServerCleaners crypto (nat * bytes * bytes)
    string_of_list_byte (fun box => box).
#[local] Existing Instance cleaners.

Record DemoWorld := {
  draws : nat;
  stores : KitEngine.Stores
}.

Definition draw (w : DemoWorld) : DemoWorld :=
  {| draws := S (draws w); stores := stores w |}.

Definition io : Io :=
  @Build_Io crypto DemoWorld
    (fun n w => (repeat (byte_of_ascii (ascii_of_nat (draws w))) n, draw w))
    (fun data key w => ((draws w, data, key), draw w)).
#[local] Existing Instance io.

Definition no_stash (username : string) : LoginStash :=
  Node {| stash_loginId := ""; stash_appId := "";
          stash_username := Some username;
          stash_pin2Key := None; stash_pin2TextBox := None |} [].

Definition env : LoginEnv :=
  {| ApiInput := gmap string AccountState * gmap string LoginStash;
     accounts := fst;
     EdgeAccountOptions := unit;
     Json := unit;
     fixUsername := lowercase;
     getStash := fun ai username =>
       default (no_stash (lowercase username)) (snd ai !! lowercase username);
     getLoginOtp := fun _ => None |}.
#[local] Existing Instance env.

Definition bob_key : bytes := [x0b; x0b].

(** The server accepts the proof of PIN "1234" under [bob_key]. *)
Definition accepts (request : LoginRequestBody) : bool :=
  match req_pin2Auth request with
  | Some auth =>
      same_bytes auth (bob_key ++ list_byte_of_string "1234")
  | None => false
  end.

(** The server refuses every request for the node "locked". *)
Definition respond (sent : list KitEngine.ServerRequest)
    (request : KitEngine.ServerRequest) : option JsError :=
  if String.eqb (KitEngine.sr_loginId request) "locked"
  then Some (Error "Conflict") else None.

Definition net : LoginNet :=
  {| loginFetch := fun ai method path request w =>
       (if accepts request then Ok tt else Throw (Error "Invalid password"),
        w);
     serverLogin := fun ai stashTree stash opts request decryptReply w =>
       (Throw (Error "NetworkError"), w);
     applyKits := fun ai tree kits w =>
       let '(r, st) :=
         KitEngine.applyKits respond kits
           {| KitEngine.sent := KitEngine.sent (stores w);
              KitEngine.stashTree := KitEngine.stashTree (stores w);
              KitEngine.loginTree := tree |} in
       (r, {| draws := draws w; stores := st |}) |}.
#[local] Existing Instance net.

Definition stash_node (loginId appId : string) (key : option bytes)
    (cs : list LoginStash) : LoginStash :=
  Node {| stash_loginId := loginId; stash_appId := appId;
          stash_username := Some "bob";
          stash_pin2Key := key; stash_pin2TextBox := None |} cs.

Definition login_node (loginId appId : string) (pin : option string)
    (key : option bytes) (cs : list LoginTree) : LoginTree :=
  Node {| login_loginId := loginId; login_appId := appId;
          login_username := Some "bob";
          login_loginKey := [x01; x02];
          login_pin := pin; login_pin2Key := key |} cs.

(** A device where only the second sub-account has a PIN key. *)
Definition second_child : LoginStash :=
  stash_node "c2" "app" (Some bob_key) [].

Definition bob_stash : LoginStash :=
  stash_node "root" "" None [stash_node "c1" "wallet" None []; second_child].

(** A device whose root answers to the app but has no PIN key, above a
    sub-account of the same app that has one. *)
Definition keyed_child : LoginStash :=
  stash_node "c1" "app" (Some bob_key) [].

Definition shadowed_stash : LoginStash :=
  stash_node "root" "app" None [keyed_child].

(** An account of one root and two sub-accounts; the first sub-account
    already has a PIN key. *)
Definition bob_tree : LoginTree :=
  login_node "root" "" None None
    [login_node "c1" "wallet" None (Some bob_key) [];
     login_node "c2" "app" None None []].

Definition empty_stores : KitEngine.Stores :=
  {| KitEngine.sent := [];
     KitEngine.stashTree := bob_stash;
     KitEngine.loginTree := bob_tree |}.

Definition world0 : DemoWorld := {| draws := 0; stores := empty_stores |}.

Definition bob_ai : ApiInput :=
  ({[ "account0" := {| acct_loginTree := bob_tree; acct_username := "Bob" |} ]},
   {[ "bob" := bob_stash ]}).

(** A reader of [scheme://host/path] in place of the [URL] parser, and a
    core that starts at once. *)
Fixpoint split_at (stop : ascii) (s : list ascii)
  : list ascii * list ascii :=
  match s with
  | [] => ([], [])
  | c :: s' =>
      if Ascii.eqb c stop then ([], s)
      else let (before, rest) := split_at stop s' in (c :: before, rest)
  end.

Definition parse_url (server : string) : Result URL :=
  let (scheme, rest) := split_at ":" (list_ascii_of_string server) in
  match rest with
  | ":"%char :: "/"%char :: "/"%char :: rest' =>
      let (host, _) := split_at "/" rest' in
      Ok {| protocol := string_of_list_ascii (scheme ++ [":"%char]);
            hostname := string_of_list_ascii host |}
  | _ => Throw TypeError
  end.

Definition root : RootEnv :=
  {| RootWorld := nat;
     PluginIos := unit;
     LogBackend := unit;
     EdgeContext := string;
     new_URL := parse_url;
     startCore := fun _ _ apiKey appId authServer started =>
       (Ok authServer, S started) |}.

(** An account whose second node the server refuses to change. *)
Definition locked_tree : LoginTree :=
  login_node "root" "" None None
    [login_node "locked" "wallet" None (Some bob_key) [];
     login_node "c2" "app" None None []].

Definition locked_stores : KitEngine.Stores :=
  {| KitEngine.sent := [];
     KitEngine.stashTree :=
       stash_node "root" "" (Some bob_key)
         [stash_node "locked" "wallet" (Some bob_key) [];
          stash_node "c2" "app" (Some bob_key) []];
     KitEngine.loginTree := locked_tree |}.

(** The wallet sub-account of [bob_tree]: this device holds no PIN key
    for it. *)
Definition wallet_login : LoginTree :=
  login_node "c1" "wallet" None (Some bob_key) [].

(** [bob_tree] once every PIN key is gone. *)
Definition bare_tree : LoginTree :=
  login_node "root" "" None None
    [login_node "c1" "wallet" None None [];
     login_node "c2" "app" None None []].

(** An account whose root knows its pin but has no PIN key, above a
    sub-account that has one. *)
Definition alice_tree : LoginTree :=
  login_node "root" "" (Some "0000") None
    [login_node "c1" "wallet" (Some "0000") (Some bob_key) []].

Definition alice_ai : ApiInput :=
  ({[ "account1" :=
        {| acct_loginTree := alice_tree; acct_username := "Alice" |} ]},
   {[ "alice" := stash_node "root" "" None [] ]}).

End Demo.

(** * Properties *)

(** ** Hierarchies *)

Lemma Tree_ind {A} (P : Tree A -> Prop) :
  (forall f cs, Forall P cs -> P (Node f cs)) -> forall t, P t.
Proof.
  intros step.
  fix IH 1. intros [f cs]. apply step.
  induction cs as [|c cs IHcs]; constructor; [apply IH | exact IHcs].
Qed.

Lemma find_app {A} (p : A -> bool) (l1 l2 : list A) :
  find p (l1 ++ l2) =
  match find p l1 with Some x => Some x | None => find p l2 end.
Proof.
  induction l1 as [|a l1 IH]; simpl; [reflexivity|].
  destruct (p a); [reflexivity | exact IH].
Qed.

(** [searchTree] returns the first node of the pre-order walk that
    satisfies the predicate. *)
Lemma searchTree_preorder {A} (p : Tree A -> bool) (t : Tree A) :
  searchTree p t = find p (preorder t).
Proof.
  induction t as [f cs IH] using Tree_ind.
  cbn [searchTree preorder find].
  destruct (p (Node f cs)); [reflexivity|].
  induction IH as [|c cs Hc _ IHcs]; [reflexivity|].
  cbn [flat_map]. rewrite find_app, Hc.
  destruct (find p (preorder c)); [reflexivity | exact IHcs].
Qed.

(** ** [findPin2Stash] *)

Section Pin2Facts.
Context `{!Crypto} `{!Io} `{!ServerCleaners} `{!LoginEnv} `{!LoginNet}.

(** Whatever [findPin2Stash] returns carries a PIN key. *)
Lemma findPin2Stash_has_key (stashTree stash : LoginStash) (appId : string) :
  findPin2Stash stashTree appId = Some stash ->
  exists pin2Key, stash_pin2Key (fields stash) = Some pin2Key.
Proof.
  unfold findPin2Stash.
  destruct (stash_pin2Key (fields stashTree)) as [k|] eqn:Hroot.
  - intros [= <-]. eauto.
  - destruct (searchTree _ stashTree) as [found|]; [|discriminate].
    destruct (stash_pin2Key (fields found)) as [k|] eqn:Hk; [|discriminate].
    intros [= <-]. eauto.
Qed.

Lemma find_all_false {A} (p : A -> bool) (l : list A) :
  Forall (fun x => p x = false) l -> find p l = None.
Proof.
  induction 1 as [|x l Hx _ IH]; simpl; [reflexivity|].
  rewrite Hx. exact IH.
Qed.

(** C2 (as amended): [findPin2Stash] returns the root when the root
    carries [pin2Key]; otherwise it takes the first node of the pre-order
    walk, the root included, whose [appId] matches, and returns that node
    if it carries [pin2Key] and nothing if it does not (no later match is
    looked at); with no match it returns nothing.  In particular, for a
    root without the key whose [appId] does not match, and two children
    of which the first has no matching node below it and the second
    matches and has a key, it returns the second child. *)
Theorem findPin2Stash_first_match (stashTree : LoginStash) (appId : string) :
  findPin2Stash stashTree appId =
    (if not_null (stash_pin2Key (fields stashTree)) then Some stashTree
     else
       match
         find (fun node => String.eqb (stash_appId (fields node)) appId)
              (preorder stashTree)
       with
       | Some node =>
           if not_null (stash_pin2Key (fields node)) then Some node else None
       | None => None
       end)
  /\ (forall (root : StashFields) (first second : LoginStash),
        stashTree = Node root [first; second] ->
        stash_pin2Key root = None ->
        stash_appId root <> appId ->
        Forall (fun node => stash_appId (fields node) <> appId)
               (preorder first) ->
        stash_appId (fields second) = appId ->
        stash_pin2Key (fields second) <> None ->
        findPin2Stash stashTree appId = Some second).
Proof.
  assert (General : forall t : LoginStash,
    findPin2Stash t appId =
      (if not_null (stash_pin2Key (fields t)) then Some t
       else
         match
           find (fun node => String.eqb (stash_appId (fields node)) appId)
                (preorder t)
         with
         | Some node =>
             if not_null (stash_pin2Key (fields node)) then Some node
             else None
         | None => None
         end)).
  { intros t. unfold findPin2Stash. rewrite searchTree_preorder.
    destruct (stash_pin2Key (fields t)); cbn [not_null]; [reflexivity|].
    destruct (find _ (preorder t)) as [node|]; [|reflexivity].
    destruct (stash_pin2Key (fields node)); reflexivity. }
  split; [apply General|].
  intros root first second -> Hroot Hne Hfirst Hid Hkey.
  rewrite General. cbn [fields]. rewrite Hroot. cbn [not_null].
  cbn [preorder flat_map find fields].
  apply String.eqb_neq in Hne. rewrite Hne.
  rewrite find_app, find_all_false.
  - rewrite app_nil_r. destruct second as [f2 cs2].
    cbn [preorder find fields] in *.
    apply String.eqb_eq in Hid. rewrite Hid. cbn [fields].
    destruct (stash_pin2Key f2); [reflexivity | contradiction].
  - eapply Forall_impl; [exact Hfirst|].
    intros node Hn. cbn beta in Hn. apply String.eqb_neq. exact Hn.
Qed.

(** ** [pin2Id] *)

(** C9: [pin2Id] is a function of the key and of the normalized username
    only: equal keys and usernames with equal [fixUsername] give equal
    identifiers (so, in particular, equal inputs give equal outputs). *)
Theorem pin2Id_normalized (key1 key2 : bytes) (username1 username2 : string) :
  key1 = key2 ->
  fixUsername username1 = fixUsername username2 ->
  pin2Id key1 username1 = pin2Id key2 username2.
Proof.
  intros -> Hname. unfold pin2Id. rewrite Hname. reflexivity.
Qed.

(** ** [loginPin2] *)

(** C6: [loginPin2] fails with [NotEnabled] by itself, whatever the
    network does and without touching the world, exactly when
    [findPin2Stash] returns nothing.  Otherwise the node found has a
    [pin2Key], and [loginPin2] is the call of [serverLogin] with the
    request made of exactly [pin2Id = HMAC(normalized username, pin2Key)]
    and [pin2Auth = HMAC(pin, pin2Key)], and with a decrypt step that
    fails with [MissingData] on a reply without [pin2Box] and otherwise
    decrypts [pin2Box] with the local [pin2Key]. *)
Theorem loginPin2_spec (ai : ApiInput) (appId username pin : string)
    (opts : EdgeAccountOptions) (w : World) :
  ((forall net : LoginNet,
       @loginPin2 _ _ _ _ net ai appId username pin opts w
       = (Throw NotEnabled, w))
   <-> findPin2Stash (getStash ai username) appId = None)
  /\ (forall stash : LoginStash,
        findPin2Stash (getStash ai username) appId = Some stash ->
        exists (pin2Key : bytes) (decryptReply : LoginPayload -> Result bytes),
          stash_pin2Key (fields stash) = Some pin2Key
          /\ loginPin2 ai appId username pin opts
             = serverLogin ai (getStash ai username) stash opts
                 {| req_pin2Id :=
                      Some (hmacSha256 (utf8_parse (fixUsername username))
                                       pin2Key);
                    req_pin2Auth := Some (hmacSha256 (utf8_parse pin) pin2Key);
                    req_otp := None |}
                 decryptReply
          /\ (forall reply,
                reply_pin2Box reply = None ->
                decryptReply reply = Throw MissingData)
          /\ (forall reply pin2Box,
                reply_pin2Box reply = Some pin2Box ->
                decryptReply reply = decrypt pin2Box pin2Key)).
Proof.
  split; [split|].
  - intros Hall. specialize (Hall unreachable). unfold loginPin2 in Hall.
    destruct (findPin2Stash (getStash ai username) appId) as [stash|] eqn:Hfind;
      [|reflexivity].
    destruct (findPin2Stash_has_key _ _ _ Hfind) as [k Hk].
    rewrite Hk in Hall. cbn in Hall. discriminate.
  - intros Hnone net. unfold loginPin2. rewrite Hnone. reflexivity.
  - intros stash Hfind.
    destruct (findPin2Stash_has_key _ _ _ Hfind) as [k Hk].
    exists k. eexists. split; [exact Hk|]. split; [|split].
    + unfold loginPin2. rewrite Hfind, Hk. reflexivity.
    + intros reply Hbox. cbn beta. rewrite Hbox. reflexivity.
    + intros reply box Hbox. cbn beta. rewrite Hbox. reflexivity.
Qed.

(** ** [checkPin2] *)

(** C1 (as amended): [checkPin2] returns [false] for a login without
    username; it rejects with "No PIN set locally for this account" when
    no local credential key is found; otherwise it sends one dry login
    request and returns [true] when that request succeeds and [false]
    when it fails, be it the network or the server's refusal. *)
Theorem checkPin2_outcomes (ai : ApiInput) (login : LoginTree) (pin : string)
    (w : World) :
  match login_username (fields login) with
  | None => checkPin2 ai login pin w = (Ok false, w)
  | Some username =>
      match findPin2Stash (getStash ai username) (login_appId (fields login)) with
      | None =>
          checkPin2 ai login pin w =
          (Throw (Error "No PIN set locally for this account"), w)
      | Some stash =>
          exists pin2Key,
            stash_pin2Key (fields stash) = Some pin2Key /\
            let settled :=
              loginFetch ai "POST" "/v2/login"
                {| req_pin2Id := Some (pin2Id pin2Key username);
                   req_pin2Auth := Some (pin2Auth pin2Key pin);
                   req_otp := getLoginOtp login |} w in
            checkPin2 ai login pin w = (Ok (is_ok (fst settled)), snd settled)
      end
  end.
Proof.
  unfold checkPin2.
  destruct (login_username (fields login)) as [username|]; [|reflexivity].
  destruct (findPin2Stash _ _) as [stash|] eqn:Hfind; [|reflexivity].
  destruct (findPin2Stash_has_key _ _ _ Hfind) as [k Hk].
  exists k. split; [exact Hk|]. rewrite Hk. cbv zeta. unfold bind.
  destruct (loginFetch _ _ _ _ w) as [[good|bad] w']; reflexivity.
Qed.

(** ** [changePin] *)

(** C5: for an account of the store, [changePin] resolves [enableLogin],
    when it is not given, to true exactly when the tree already has a
    [pin2Key] or a pin was supplied and the tree has no cached pin, and
    [pin], when it is not given, to the tree's cached pin.  With no pin
    after that it fails with [PinRequiredToEnable] when enabling and
    applies the delete kits of the whole tree when disabling; with a pin
    it applies the change kits built from the resolved pin and flag. *)
Theorem changePin_policy (ai : ApiInput) (accountId : string)
    (account : AccountState) (pin : option string)
    (enableLogin : option bool) :
  accounts ai !! accountId = Some account ->
  let loginTree := acct_loginTree account in
  (resolveEnable loginTree pin None = true <->
     login_pin2Key (fields loginTree) <> None \/
     (pin <> None /\ login_pin (fields loginTree) = None))
  /\ (forall enable, resolveEnable loginTree pin (Some enable) = enable)
  /\ (resolvePin loginTree None = login_pin (fields loginTree))
  /\ (forall supplied, resolvePin loginTree (Some supplied) = Some supplied)
  /\ (resolvePin loginTree pin = None ->
      resolveEnable loginTree pin enableLogin = true ->
      changePin ai accountId pin enableLogin = ret (Throw PinRequiredToEnable))
  /\ (resolvePin loginTree pin = None ->
      resolveEnable loginTree pin enableLogin = false ->
      changePin ai accountId pin enableLogin
      = applyKits ai loginTree (makeDeletePin2Kits loginTree))
  /\ (forall known,
      resolvePin loginTree pin = Some known ->
      changePin ai accountId pin enableLogin
      = (kits <- makeChangePin2Kits loginTree (acct_username account) known
                   (resolveEnable loginTree pin enableLogin);;
         applyKits ai loginTree kits)).
Proof.
  intros Haccount loginTree.
  assert (Henable :
    resolveEnable loginTree pin enableLogin =
    match enableLogin with
    | Some enable => enable
    | None =>
        not_null (login_pin2Key (fields loginTree)) ||
        (not_null pin && is_null (login_pin (fields loginTree)))
    end).
  { unfold resolveEnable, is_null.
    destruct enableLogin; [reflexivity|].
    destruct (login_pin2Key (fields loginTree)), pin,
             (login_pin (fields loginTree)); reflexivity. }
  repeat split.
  - unfold resolveEnable.
    destruct (login_pin2Key (fields loginTree)), pin,
             (login_pin (fields loginTree));
      intros; try discriminate; auto.
  - unfold resolveEnable.
    destruct (login_pin2Key (fields loginTree)), pin,
             (login_pin (fields loginTree));
      intros [?|[? ?]]; congruence.
  - intros Hpin Hen. unfold changePin. rewrite Haccount. fold loginTree.
    rewrite <- Henable, Hen. unfold resolvePin in Hpin. rewrite Hpin.
    reflexivity.
  - intros Hpin Hen. unfold changePin. rewrite Haccount. fold loginTree.
    rewrite <- Henable, Hen. unfold resolvePin in Hpin. rewrite Hpin.
    reflexivity.
  - intros known Hpin. unfold changePin. rewrite Haccount. fold loginTree.
    rewrite <- Henable. unfold resolvePin in Hpin. rewrite Hpin.
    reflexivity.
Qed.

(** ** Kits for a whole tree *)

Lemma mapM_app {A B} (f : A -> M B) (l1 l2 : list A) (w : World) :
  mapM f (l1 ++ l2) w =
  (bs1 <- mapM f l1;; bs2 <- mapM f l2;; ret (bs1 ++ bs2)) w.
Proof.
  revert w. induction l1 as [|a l1 IH]; intros w; cbn [mapM app].
  - unfold bind, ret. destruct (mapM f l2 w). reflexivity.
  - unfold bind, ret in *. destruct (f a w) as [b w1]. rewrite IH.
    destruct (mapM f l1 w1) as [bs1 w2]. destruct (mapM f l2 w2). reflexivity.
Qed.

(** [makeChangePin2Kits] builds the kit of each node of the pre-order
    walk in turn, on the world the previous node left. *)
Lemma makeChangePin2Kits_preorder (loginTree : LoginTree)
    (username pin : string) (enableLogin : bool) (w : World) :
  makeChangePin2Kits loginTree username pin enableLogin w =
  mapM (fun login => makeChangePin2Kit login username pin enableLogin)
       (preorder loginTree) w.
Proof.
  revert w. induction loginTree as [f cs IH] using Tree_ind. intros w.
  cbn [makeChangePin2Kits preorder mapM]. unfold bind, ret.
  destruct (makeChangePin2Kit (Node f cs) username pin enableLogin w)
    as [first w1].
  match goal with
  | |- (let (_, _) := ?each cs w1 in _) = (let (_, _) := ?walk w1 in _) =>
      assert (Hrest : forall w', each cs w' = walk w')
  end.
  { induction IH as [|c cs Hc _ IHcs]; intros w'; [reflexivity|].
    cbn [flat_map]. rewrite mapM_app. unfold bind, ret. rewrite Hc.
    match goal with
    | |- context [mapM ?F (preorder c) w'] =>
        destruct (mapM F (preorder c) w') as [kits w2]
    end.
    rewrite IHcs. reflexivity. }
  rewrite Hrest. reflexivity.
Qed.

Lemma mapM_Forall2 {A B} (f : A -> M B) (R : A -> B -> Prop) :
  (forall a w, R a (fst (f a w))) ->
  forall l w, Forall2 R l (fst (mapM f l w)).
Proof.
  intros Hf l. induction l as [|a l IH]; intros w; cbn [mapM].
  - constructor.
  - unfold bind, ret. specialize (Hf a w). destruct (f a w) as [b w1].
    specialize (IH w1). destruct (mapM f l w1) as [bs w2].
    constructor; assumption.
Qed.

Lemma makeDeletePin2Kits_preorder (loginTree : LoginTree) :
  makeDeletePin2Kits loginTree = map makeDeletePin2Kit (preorder loginTree).
Proof.
  induction loginTree as [f cs IH] using Tree_ind.
  cbn [makeDeletePin2Kits preorder map]. f_equal.
  induction IH as [|c cs Hc _ IHcs]; [reflexivity|].
  cbn [flat_map]. rewrite map_app, Hc, IHcs. reflexivity.
Qed.

(** On one node, the code makes the draws the specification names, in
    the worlds it names. *)
Lemma makeChangePin2Kit_enableNode (login : LoginTree)
    (username pin : string) (w : World) :
  makeChangePin2Kit login username pin true w
  = enableNode username pin login w.
Proof.
  unfold makeChangePin2Kit, enableNode, bind, ret. cbv zeta.
  destruct (encrypt (utf8_parse pin) (login_loginKey (fields login)) w)
    as [textBox w1].
  destruct (login_pin2Key (fields login)) as [existing|].
  - destruct (encrypt (login_loginKey (fields login)) existing w1)
      as [box w2].
    destruct (encrypt existing (login_loginKey (fields login)) w2)
      as [keyBox w3].
    reflexivity.
  - destruct (random 32 w1) as [key wk].
    destruct (encrypt (login_loginKey (fields login)) key wk) as [box w2].
    destruct (encrypt key (login_loginKey (fields login)) w2) as [keyBox w3].
    reflexivity.
Qed.

(** C3: with [enableLogin = true], [makeChangePin2Kits] returns exactly
    one kit per node of the tree, in pre-order, each node being built in
    the world the node before it left.  The kit of a node names that
    node, carries the given pin, and uses as credential key the node's
    own [pin2Key] when it has one and otherwise a key of its own, drawn
    with [io.random(32)] in the world that node has reached (so no draw
    is shared between two nodes), which is 32 bytes long; its server body
    has all five values: [pin2Id] and [pin2Auth] derived from that key,
    [pin2Box] (the login key under the credential key), [pin2KeyBox] (the
    credential key under the login key) and [pin2TextBox] (the pin under
    the login key). *)
Theorem makeChangePin2Kits_enable
    (random_length : forall n w, List.length (fst (random n w)) = n)
    (loginTree : LoginTree) (username pin : string) (w : World) :
  makeChangePin2Kits loginTree username pin true w
  = collectKits (enableNode username pin) (preorder loginTree) w
  /\
  Forall2
    (fun login kit =>
       exists (pin2Key : bytes) (pin2Box pin2KeyBox pin2TextBox : EdgeBox),
         kit =
           {| kit_serverMethod := None;
              kit_serverPath := "/v2/login/pin2";
              kit_server := Some
                {| json_pin2Id := Some (wasBase64 (pin2Id pin2Key username));
                   json_pin2Auth := Some (wasBase64 (pin2Auth pin2Key pin));
                   json_pin2Box := Some (wasEdgeBox pin2Box);
                   json_pin2KeyBox := Some (wasEdgeBox pin2KeyBox);
                   json_pin2TextBox := Some (wasEdgeBox pin2TextBox) |};
              kit_stash := {| sp_pin2Key := Assign (Some pin2Key);
                              sp_pin2TextBox := Assign (Some pin2TextBox) |};
              kit_login := {| lp_pin2Key := Assign (Some pin2Key);
                              lp_pin := Assign (Some pin) |};
              kit_loginId := login_loginId (fields login) |}
         /\ match login_pin2Key (fields login) with
            | Some existing => pin2Key = existing
            | None =>
                (exists w0, pin2Key = fst (random 32 w0)) /\
                List.length pin2Key = 32
            end
         /\ (exists w1,
               pin2TextBox =
               fst (encrypt (utf8_parse pin) (login_loginKey (fields login)) w1))
         /\ (exists w2,
               pin2Box = fst (encrypt (login_loginKey (fields login)) pin2Key w2))
         /\ (exists w3,
               pin2KeyBox = fst (encrypt pin2Key (login_loginKey (fields login)) w3)))
    (preorder loginTree)
    (fst (makeChangePin2Kits loginTree username pin true w)).
Proof.
  split.
  { rewrite makeChangePin2Kits_preorder. revert w.
    induction (preorder loginTree) as [|login nodes IH]; intros w;
      cbn [mapM collectKits]; [reflexivity|].
    unfold bind at 1. rewrite makeChangePin2Kit_enableNode.
    destruct (enableNode username pin login w) as [kit w1].
    unfold bind, ret. rewrite IH.
    destruct (collectKits (enableNode username pin) nodes w1). reflexivity. }
  rewrite makeChangePin2Kits_preorder.
  apply mapM_Forall2. clear w. intros login w.
  unfold makeChangePin2Kit, bind, ret.
  destruct (encrypt (utf8_parse pin) (login_loginKey (fields login)) w)
    as [textBox w1] eqn:Htext.
  destruct (login_pin2Key (fields login)) as [existing|].
  - destruct (encrypt (login_loginKey (fields login)) existing w1)
      as [box w2] eqn:Hbox.
    destruct (encrypt existing (login_loginKey (fields login)) w2)
      as [keyBox w3] eqn:HkeyBox.
    exists existing, box, keyBox, textBox. cbn [fst].
    split; [reflexivity|]. split; [reflexivity|].
    split; [exists w; rewrite Htext; reflexivity|].
    split; [exists w1; rewrite Hbox; reflexivity|].
    exists w2; rewrite HkeyBox; reflexivity.
  - destruct (random 32 w1) as [key wk] eqn:Hdraw.
    assert (Hk : key = fst (random 32 w1)) by (rewrite Hdraw; reflexivity).
    destruct (encrypt (login_loginKey (fields login)) key wk)
      as [box w2] eqn:Hbox.
    destruct (encrypt key (login_loginKey (fields login)) w2)
      as [keyBox w3] eqn:HkeyBox.
    exists key, box, keyBox, textBox. cbn [fst].
    split; [reflexivity|].
    split; [split; [exists w1; exact Hk | rewrite Hk; apply random_length]|].
    split; [exists w; rewrite Htext; reflexivity|].
    split; [exists wk; rewrite Hbox; reflexivity|].
    exists w2; rewrite HkeyBox; reflexivity.
Qed.

(** C4: with [enableLogin = false], the kit of each node has a server
    body in which [pin2Id], [pin2Auth], [pin2Box] and [pin2KeyBox] are
    absent and only [pin2TextBox] is present, the pin freshly encrypted
    under that node's [loginKey]; its stash and tree patches clear
    [pin2Key], and its stash patch still carries the new [pin2TextBox]. *)
Theorem makeChangePin2Kits_disable (loginTree : LoginTree)
    (username pin : string) (w : World) :
  Forall2
    (fun login kit =>
       exists (pin2TextBox : EdgeBox),
         (exists w0,
            pin2TextBox =
            fst (encrypt (utf8_parse pin) (login_loginKey (fields login)) w0))
         /\ kit =
           {| kit_serverMethod := None;
              kit_serverPath := "/v2/login/pin2";
              kit_server := Some
                {| json_pin2Id := None;
                   json_pin2Auth := None;
                   json_pin2Box := None;
                   json_pin2KeyBox := None;
                   json_pin2TextBox := Some (wasEdgeBox pin2TextBox) |};
              kit_stash := {| sp_pin2Key := Assign None;
                              sp_pin2TextBox := Assign (Some pin2TextBox) |};
              kit_login := {| lp_pin2Key := Assign None;
                              lp_pin := Assign (Some pin) |};
              kit_loginId := login_loginId (fields login) |})
    (preorder loginTree)
    (fst (makeChangePin2Kits loginTree username pin false w)).
Proof.
  rewrite makeChangePin2Kits_preorder.
  apply mapM_Forall2. clear w. intros login w.
  unfold makeChangePin2Kit, bind, ret.
  destruct (encrypt (utf8_parse pin) (login_loginKey (fields login)) w)
    as [textBox w1] eqn:Htext.
  exists textBox. cbn [fst].
  split; [exists w; rewrite Htext; reflexivity | reflexivity].
Qed.

Lemma makeDeletePin2Kit_same_ids (l1 l2 : list LoginTree) :
  map (fun login => login_loginId (fields login)) l1
  = map (fun login => login_loginId (fields login)) l2 ->
  map makeDeletePin2Kit l1 = map makeDeletePin2Kit l2.
Proof.
  revert l2. induction l1 as [|a l1 IH]; intros [|b l2]; cbn [map];
    try discriminate; [reflexivity|].
  intros [= Hid Hrest]. f_equal; [|apply IH; exact Hrest].
  unfold makeDeletePin2Kit. rewrite Hid. reflexivity.
Qed.

(** C7: [makeDeletePin2Kits] returns exactly one kit per node of the
    tree, in pre-order; each is a [DELETE] request without body whose
    stash and tree patches clear [pin2Key] and touch nothing else,
    whatever the node holds.  The kits depend on the tree only through
    the [loginId]s of its pre-order walk, so asking again, also after the
    keys of the tree have changed, gives the same kits. *)
Theorem makeDeletePin2Kits_spec (loginTree : LoginTree) :
  makeDeletePin2Kits loginTree =
    map (fun login =>
           {| kit_serverMethod := Some "DELETE";
              kit_serverPath := "/v2/login/pin2";
              kit_server := None;
              kit_stash := {| sp_pin2Key := Assign None;
                              sp_pin2TextBox := Keep |};
              kit_login := {| lp_pin2Key := Assign None; lp_pin := Keep |};
              kit_loginId := login_loginId (fields login) |})
        (preorder loginTree)
  /\ (forall other : LoginTree,
        map (fun login => login_loginId (fields login)) (preorder other)
        = map (fun login => login_loginId (fields login)) (preorder loginTree) ->
        makeDeletePin2Kits other = makeDeletePin2Kits loginTree).
Proof.
  split.
  - apply makeDeletePin2Kits_preorder.
  - intros other Hids. rewrite !makeDeletePin2Kits_preorder.
    apply makeDeletePin2Kit_same_ids. exact Hids.
Qed.

End Pin2Facts.

(** ** The kit engine *)

Section EngineFacts.
Context `{!Crypto} `{!ServerCleaners}.
Variable respond :
  list KitEngine.ServerRequest -> KitEngine.ServerRequest -> option JsError.

Import KitEngine.

(** A run of [applyKits] that succeeds has sent every request and has
    committed every patch, in order. *)
Lemma applyKits_ok (kits : list LoginKit) (st : Stores) :
  fst (applyKits respond kits st) = Ok tt ->
  sent (snd (applyKits respond kits st)) = sent st ++ map kitRequest kits /\
  stashTree (snd (applyKits respond kits st))
  = fold_left (fun stash kit => commitStash kit stash) kits (stashTree st) /\
  loginTree (snd (applyKits respond kits st))
  = fold_left (fun tree kit => commitLogin kit tree) kits (loginTree st).
Proof.
  revert st. induction kits as [|kit kits IH]; intros st; cbn [applyKits].
  - intros _. cbn. rewrite app_nil_r. auto.
  - unfold applyKit.
    destruct (respond (sent st) (kitRequest kit)) as [e|]; [discriminate|].
    intros Hok. destruct (IH _ Hok) as (Hsent & Hstash & Htree).
    rewrite Hsent, Hstash, Htree. cbn. rewrite <- app_assoc. auto.
Qed.

Lemma applyKits_app (before rest : list LoginKit) (st : Stores) :
  fst (applyKits respond before st) = Ok tt ->
  applyKits respond (before ++ rest) st
  = applyKits respond rest (snd (applyKits respond before st)).
Proof.
  revert st. induction before as [|kit before IH]; intros st;
    cbn [applyKits app].
  - reflexivity.
  - destruct (applyKit respond kit st) as [[[]|e] st']; [apply IH|].
    discriminate.
Qed.

(** C8: [applyKits] processes the kits in order.  When the kits before
    the k-th have been accepted and the server fails the k-th request
    with [e], the call rejects with [e]; the stash and the tree are the
    ones obtained by committing exactly the kits before the k-th, in
    order (nothing is rolled back, and neither the k-th nor a later patch
    is applied); and the server has received the requests of the kits up
    to the k-th and none of a later kit. *)
Theorem applyKits_partial_failure (before after : list LoginKit)
    (failing : LoginKit) (st : Stores) (e : JsError) :
  fst (applyKits respond before st) = Ok tt ->
  respond (sent st ++ map kitRequest before) (kitRequest failing) = Some e ->
  applyKits respond (before ++ failing :: after) st =
    (Throw e,
     {| sent := sent st ++ map kitRequest before ++ [kitRequest failing];
        stashTree :=
          fold_left (fun stash kit => commitStash kit stash) before
                    (stashTree st);
        loginTree :=
          fold_left (fun tree kit => commitLogin kit tree) before
                    (loginTree st) |}).
Proof.
  intros Hbefore Hfail.
  rewrite applyKits_app by exact Hbefore.
  destruct (applyKits_ok _ _ Hbefore) as (Hsent & Hstash & Htree).
  cbn [applyKits]. unfold applyKit.
  rewrite Hsent, Hfail, Hstash, Htree, <- app_assoc. reflexivity.
Qed.

(** A patch that assigns [undefined] to [pin2Key] leaves the node without
    a key, whatever it held. *)
Lemma merge_clears_pin2Key (sp : StashPatch) (lp : LoginPatch)
    (stash : StashFields) (login : LoginFields) :
  sp_pin2Key sp = Assign None ->
  lp_pin2Key lp = Assign None ->
  stash_pin2Key (mergeStash sp stash) = None /\
  login_pin2Key (mergeLogin lp login) = None.
Proof.
  intros Hsp Hlp. cbn [mergeStash mergeLogin stash_pin2Key login_pin2Key].
  rewrite Hsp, Hlp. split; reflexivity.
Qed.

(** Committing a patch never changes which node is which. *)
Lemma updateTree_ids {A B} (id : A -> B) (predicate : A -> bool)
    (update : A -> A) (t : Tree A) :
  (forall a, id (update a) = id a) ->
  map (fun node => id (fields node)) (preorder (updateTree predicate update t))
  = map (fun node => id (fields node)) (preorder t).
Proof.
  intros Hid. induction t as [f cs IH] using Tree_ind.
  cbn [updateTree preorder map fields]. f_equal.
  - destruct (predicate f); [apply Hid | reflexivity].
  - induction IH as [|c cs Hc _ IHcs]; [reflexivity|].
    cbn [map flat_map]. rewrite !map_app, Hc, IHcs. reflexivity.
Qed.

Lemma applyKits_ids (kits : list LoginKit) (st : Stores) :
  map (fun node => login_loginId (fields node))
      (preorder (loginTree (snd (applyKits respond kits st))))
  = map (fun node => login_loginId (fields node)) (preorder (loginTree st)).
Proof.
  revert st. induction kits as [|kit kits IH]; intros st; cbn [applyKits];
    [reflexivity|].
  unfold applyKit.
  destruct (respond (sent st) (kitRequest kit)); [reflexivity|].
  rewrite IH. cbn [loginTree]. unfold commitLogin.
  apply updateTree_ids. reflexivity.
Qed.

End EngineFacts.

(** Deleting is idempotent through the engine as well: once the delete
    kits of a tree have gone through [applyKits], accepted or not, the
    tree that results asks for the same delete kits. *)
Lemma makeDeletePin2Kits_after_applyKits `{!Crypto} `{!ServerCleaners}
    (respond :
       list KitEngine.ServerRequest -> KitEngine.ServerRequest ->
       option JsError)
    (st : KitEngine.Stores) :
  makeDeletePin2Kits
    (KitEngine.loginTree
       (snd (KitEngine.applyKits respond
               (makeDeletePin2Kits (KitEngine.loginTree st)) st)))
  = makeDeletePin2Kits (KitEngine.loginTree st).
Proof.
  rewrite !makeDeletePin2Kits_preorder.
  apply makeDeletePin2Kit_same_ids, applyKits_ids.
Qed.

(** ** Regular expressions *)

Section ReFacts.
Import Re.

Lemma Lang_Cat_inv r1 r2 s :
  Lang (Cat r1 r2) s ->
  exists s1 s2, s = s1 ++ s2 /\ Lang r1 s1 /\ Lang r2 s2.
Proof. inversion 1; subst; eauto. Qed.

Lemma Lang_Alt_inv r1 r2 s : Lang (Alt r1 r2) s -> Lang r1 s \/ Lang r2 s.
Proof. inversion 1; subst; auto. Qed.

Lemma Lang_Star_cons r a s :
  Lang (Star r) (a :: s) ->
  exists s1 s2, s = s1 ++ s2 /\ Lang r (a :: s1) /\ Lang (Star r) s2.
Proof.
  intros HL. remember (Star r) as r' eqn:Hr. remember (a :: s) as s' eqn:Hs.
  revert s Hs.
  induction HL as [| | | | | | |r0 s1 s2 H1 _ H2 IH2]; try discriminate.
  injection Hr as ->. intros s Hs. destruct s1 as [|b s1].
  - apply IH2; [reflexivity | exact Hs].
  - cbn [app] in Hs. injection Hs as -> <-. eauto.
Qed.

Lemma nullable_Lang r : nullable r = true <-> Lang r [].
Proof.
  induction r as [| | | |r1 IH1 r2 IH2|r1 IH1 r2 IH2|r IH]; cbn [nullable].
  - split; [discriminate | inversion 1].
  - split; [constructor | reflexivity].
  - split; [discriminate | inversion 1].
  - split; [discriminate | inversion 1].
  - rewrite andb_true_iff, IH1, IH2. split.
    + intros [H1 H2]. exact (LCat _ _ [] [] H1 H2).
    + intros HL. apply Lang_Cat_inv in HL as (s1 & s2 & Hs & H1 & H2).
      symmetry in Hs. apply app_eq_nil in Hs as [-> ->]. auto.
  - rewrite orb_true_iff, IH1, IH2. split.
    + intros [H1|H2]; [apply LAltL | apply LAltR]; assumption.
    + apply Lang_Alt_inv.
  - split; [constructor | reflexivity].
Qed.

Lemma deriv_Lang a r s : Lang (deriv a r) s <-> Lang r (a :: s).
Proof.
  revert s.
  induction r as [| |c|member|r1 IH1 r2 IH2|r1 IH1 r2 IH2|r IH];
    intros s; cbn [deriv].
  - split; inversion 1.
  - split; inversion 1.
  - destruct (Ascii.eqb a c) eqn:Hac.
    + apply Ascii.eqb_eq in Hac as ->.
      split; inversion 1; subst; constructor.
    + apply Ascii.eqb_neq in Hac.
      split; inversion 1; subst; congruence.
  - destruct (member a) eqn:Hm.
    + split; inversion 1; subst; constructor; assumption.
    + split; inversion 1; subst; congruence.
  - assert (Hleft : Lang (Cat (deriv a r1) r2) s ->
                    Lang (Cat r1 r2) (a :: s)).
    { intros HL. apply Lang_Cat_inv in HL as (s1 & s2 & -> & H1 & H2).
      apply IH1 in H1. exact (LCat _ _ (a :: s1) s2 H1 H2). }
    destruct (nullable r1) eqn:Hnull.
    + split.
      * intros HL. apply Lang_Alt_inv in HL as [HL|HL]; [auto|].
        apply IH2 in HL. apply nullable_Lang in Hnull.
        exact (LCat _ _ [] (a :: s) Hnull HL).
      * intros HL. apply Lang_Cat_inv in HL as (s1 & s2 & Hs & H1 & H2).
        destruct s1 as [|b s1]; cbn [app] in Hs.
        -- subst s2. apply LAltR, IH2, H2.
        -- injection Hs as <- ->. apply LAltL.
           apply LCat; [apply IH1, H1 | exact H2].
    + split; [exact Hleft|].
      intros HL. apply Lang_Cat_inv in HL as (s1 & s2 & Hs & H1 & H2).
      destruct s1 as [|b s1]; cbn [app] in Hs.
      * apply nullable_Lang in H1. congruence.
      * injection Hs as <- ->. apply LCat; [apply IH1, H1 | exact H2].
  - split.
    + intros HL. apply Lang_Alt_inv in HL as [HL|HL];
        [apply LAltL, IH1 | apply LAltR, IH2]; exact HL.
    + intros HL. apply Lang_Alt_inv in HL as [HL|HL];
        [apply LAltL, IH1 | apply LAltR, IH2]; exact HL.
  - split.
    + intros HL. apply Lang_Cat_inv in HL as (s1 & s2 & -> & H1 & H2).
      apply IH in H1. exact (LStarApp _ (a :: s1) s2 H1 H2).
    + intros HL. apply Lang_Star_cons in HL as (s1 & s2 & -> & H1 & H2).
      apply LCat; [apply IH, H1 | exact H2].
Qed.

(** The derivative matcher decides the language of the pattern. *)
Lemma matches_Lang r s : matches r s = true <-> Lang r s.
Proof.
  revert r. induction s as [|a s IH]; intros r; cbn [matches].
  - apply nullable_Lang.
  - rewrite IH. apply deriv_Lang.
Qed.

Lemma Lang_Str t s : Lang (Str t) s <-> s = t.
Proof.
  revert s. induction t as [|c t IH]; intros s; cbn [Str].
  - split; [inversion 1; reflexivity | intros ->; constructor].
  - split.
    + intros HL. apply Lang_Cat_inv in HL as (s1 & s2 & -> & H1 & H2).
      inversion H1; subst. apply IH in H2 as ->. reflexivity.
    + intros ->. apply (LCat _ _ [c] t); [constructor | apply IH; reflexivity].
Qed.

Lemma Lang_Star_Set member s :
  Lang (Star (Set_ member)) s <-> forallb member s = true.
Proof.
  split.
  - intros HL. remember (Star (Set_ member)) as r eqn:Hr.
    induction HL as [| | | | | | |r0 s1 s2 H1 _ H2 IH2]; try discriminate.
    + reflexivity.
    + injection Hr as ->. inversion H1; subst. cbn [app forallb].
      rewrite IH2 by reflexivity. rewrite andb_true_r. assumption.
  - induction s as [|c s IH]; cbn [forallb]; [constructor|].
    rewrite andb_true_iff. intros [Hc Hs].
    apply (LStarApp _ [c] s); [constructor; exact Hc | apply IH, Hs].
Qed.

Lemma Lang_Star_concat r s :
  Lang (Star r) s <-> exists parts, Forall (Lang r) parts /\ s = List.concat parts.
Proof.
  split.
  - intros HL. remember (Star r) as r' eqn:Hr.
    induction HL as [| | | | | | |r0 s1 s2 H1 _ H2 IH2]; try discriminate.
    + exists []. split; [constructor | reflexivity].
    + injection Hr as ->. destruct (IH2 eq_refl) as (parts & Hparts & ->).
      exists (s1 :: parts). split; [constructor; assumption | reflexivity].
  - intros (parts & Hparts & ->).
    induction Hparts as [|part parts Hpart _ IH]; cbn [List.concat].
    + constructor.
    + apply LStarApp; assumption.
Qed.

End ReFacts.

(** ** [validateServer] *)

Section RootFacts.
Context `{!RootEnv}.
Import Re.

Lemma Lang_label s :
  Lang (Cat (Plus (Set_ is_word_or_hyphen)) (Chr ".")) s <->
  exists label,
    (label <> [] /\ forallb is_word_or_hyphen label = true) /\
    s = label ++ ["."%char].
Proof.
  split.
  - intros HL. apply Lang_Cat_inv in HL as (s1 & s2 & -> & H1 & H2).
    inversion H2; subst.
    apply Lang_Cat_inv in H1 as (c & rest & -> & Hc & Hrest).
    inversion Hc; subst. apply Lang_Star_Set in Hrest.
    eexists. split; [|reflexivity]. split; [discriminate|].
    cbn [app forallb]. rewrite Hrest, andb_true_r. assumption.
  - intros (label & [Hne Hall] & ->).
    destruct label as [|c rest]; [contradiction|].
    cbn [forallb] in Hall. apply andb_true_iff in Hall as [Hc Hrest].
    apply LCat; [|constructor].
    apply (LCat _ _ [c] rest); [constructor; exact Hc|].
    apply Lang_Star_Set, Hrest.
Qed.

Lemma Lang_trailer s :
  Lang (Cat (Str (list_ascii_of_string "edge"))
          (Cat (Opt (Str (list_ascii_of_string "test")))
             (Cat (Chr ".") (Str (list_ascii_of_string "app"))))) s <->
  s = list_ascii_of_string "edge.app" \/
  s = list_ascii_of_string "edgetest.app".
Proof.
  split.
  - intros HL. apply Lang_Cat_inv in HL as (s1 & s2 & -> & H1 & H2).
    apply Lang_Str in H1 as ->.
    apply Lang_Cat_inv in H2 as (t1 & t2 & -> & H2 & H3).
    apply Lang_Cat_inv in H3 as (t3 & t4 & -> & H3 & H4).
    inversion H3; subst. apply Lang_Str in H4 as ->.
    apply Lang_Alt_inv in H2 as [H2|H2].
    + apply Lang_Str in H2 as ->. right. reflexivity.
    + inversion H2; subst. left. reflexivity.
  - intros [-> | ->].
    + apply (LCat _ _ (list_ascii_of_string "edge")
                      (list_ascii_of_string ".app"));
        [apply Lang_Str; reflexivity|].
      apply (LCat _ _ [] (list_ascii_of_string ".app"));
        [apply LAltR; constructor|].
      apply (LCat _ _ ["."%char] (list_ascii_of_string "app"));
        [constructor | apply Lang_Str; reflexivity].
    + apply (LCat _ _ (list_ascii_of_string "edge")
                      (list_ascii_of_string "test.app"));
        [apply Lang_Str; reflexivity|].
      apply (LCat _ _ (list_ascii_of_string "test")
                      (list_ascii_of_string ".app"));
        [apply LAltL, Lang_Str; reflexivity|].
      apply (LCat _ _ ["."%char] (list_ascii_of_string "app"));
        [constructor | apply Lang_Str; reflexivity].
Qed.

Lemma Forall_labels (P : list ascii -> Prop) (parts : list (list ascii)) :
  Forall (fun part => exists label, P label /\ part = label ++ ["."%char])
         parts <->
  exists labels,
    Forall P labels /\ parts = map (fun label => label ++ ["."%char]) labels.
Proof.
  split.
  - induction 1 as [|part parts (label & Hlabel & ->) _ (labels & Hall & ->)].
    + exists []. split; [constructor | reflexivity].
    + exists (label :: labels). split; [constructor; assumption | reflexivity].
  - intros (labels & Hall & ->).
    induction Hall as [|label labels Hlabel _ IH]; constructor; eauto.
Qed.

(** The pattern of [validateServer] accepts exactly the hostnames the
    specification names. *)
Lemma test_edge_host_pattern (host : string) :
  test edge_host_pattern host = true <-> is_edge_host host.
Proof.
  unfold test, is_edge_host, edge_host_pattern. rewrite matches_Lang. split.
  - intros HL. apply Lang_Cat_inv in HL as (s1 & s2 & Hhost & H1 & H2).
    apply Lang_Star_concat in H1 as (parts & Hparts & ->).
    assert (Hparts' : Forall (fun part => exists label,
              (label <> [] /\ forallb is_word_or_hyphen label = true) /\
              part = label ++ ["."%char]) parts).
    { eapply Forall_impl; [exact Hparts|]. intros part. apply Lang_label. }
    apply Forall_labels in Hparts' as (labels & Hlabels & ->).
    apply Lang_trailer in H2.
    exists labels.
    destruct H2 as [-> | ->];
      [exists "edge.app" | exists "edgetest.app"]; auto.
  - intros (labels & base & Hlabels & Hbase & ->).
    apply LCat.
    + apply Lang_Star_concat. eexists. split; [|reflexivity].
      assert (Hparts : Forall (fun part => exists label,
                (label <> [] /\ forallb is_word_or_hyphen label = true) /\
                part = label ++ ["."%char])
                (map (fun label => label ++ ["."%char]) labels)).
      { apply Forall_labels. exists labels. auto. }
      eapply Forall_impl; [exact Hparts|]. intros part. apply Lang_label.
    + apply Lang_trailer. destruct Hbase as [-> | ->]; auto.
Qed.

(** C10: [validateServer] returns normally exactly when the server
    parses as a URL whose hostname is [localhost], over [http:] or
    [https:], or whose protocol is [https:] and whose hostname is zero or
    more dot-terminated labels of letters, digits, underscores and
    hyphens followed by [edge.app] or [edgetest.app]; on every other
    server it throws.  [makeContext] therefore rejects such an
    [authServer] (or the default one, were it outside this set) and
    leaves the world as it found it: nothing of the core is started. *)
Theorem validateServer_accepts (server : string) :
  (validateServer server = Ok tt <->
   exists url,
     new_URL server = Ok url /\
     ((hostname url = "localhost" /\
       (protocol url = "http:" \/ protocol url = "https:")) \/
      (protocol url = "https:" /\ is_edge_host (hostname url))))
  /\ (validateServer server <> Ok tt ->
      exists e, validateServer server = Throw e)
  /\ (forall ios logBackend opts w,
        default "https://login.edge.app/api" (opt_authServer opts) = server ->
        validateServer server <> Ok tt ->
        exists e, makeContext ios logBackend opts w = (Throw e, w)).
Proof.
  split; [|split].
  - unfold validateServer.
    destruct (new_URL server) as [url|e].
    2:{ split; [discriminate | intros (url & Hurl & _); discriminate]. }
    pose proof (test_edge_host_pattern (hostname url)) as Htest.
    destruct (String.eqb (protocol url) "http:") eqn:Hhttp;
      destruct (String.eqb (hostname url) "localhost") eqn:Hlocal;
      destruct (String.eqb (protocol url) "https:") eqn:Hhttps;
      destruct (test edge_host_pattern (hostname url)) eqn:Hmatch;
      rewrite ?String.eqb_eq, ?String.eqb_neq in *;
      (split;
       [ intros Hok;
         first [ discriminate Hok
               | exists url; split; [reflexivity|]; intuition congruence ]
       | intros (url' & [= <-] & Hwhy);
         first [ reflexivity
               | exfalso; intuition congruence ] ]).
  - destruct (validateServer server) as [[]|e]; [congruence | eauto].
  - intros ios logBackend opts w Hserver Hbad. unfold makeContext.
    rewrite Hserver.
    destruct (opt_apiKey opts); [|eauto].
    destruct (validateServer server) as [[]|e]; [congruence | eauto].
Qed.

End RootFacts.

(** ** The same, on the small world *)

Section Pin2Demo.
#[local] Existing Instances
  Demo.crypto Demo.io Demo.cleaners Demo.env Demo.net Demo.root.

Lemma findPin2Stash_first_match_witness :
  findPin2Stash Demo.bob_stash "app" = Some Demo.second_child.
Proof.
  refine (proj2 (findPin2Stash_first_match Demo.bob_stash "app")
            _ _ _ eq_refl eq_refl _ _ eq_refl _).
  - vm_compute. discriminate.
  - repeat constructor. vm_compute. discriminate.
  - vm_compute. discriminate.
Defined.

(** C2 (as stated) fails: the root has no key but answers to the app, so
    the search stops at the root and finds no key, although the first
    descendant that matches the app carries one. *)
Lemma findPin2Stash_root_shadows_child :
  findPin2Stash Demo.shadowed_stash "app" = None /\
  findLocalCredential Demo.shadowed_stash "app" = Some Demo.keyed_child.
Proof. split; reflexivity. Qed.

(** C1 (as stated) fails: for a sub-account without a PIN key on this
    device [checkPin2] does not return [false], it rejects. *)
Lemma checkPin2_rejects_without_key :
  checkPin2 Demo.bob_ai Demo.wallet_login "1234" Demo.world0 =
  (Throw (Error "No PIN set locally for this account"), Demo.world0).
Proof. vm_compute. reflexivity. Qed.

Example checkPin2_right_pin :
  fst (checkPin2 Demo.bob_ai (Demo.login_node "c2" "app" None None [])
         "1234" Demo.world0) = Ok true.
Proof. vm_compute. reflexivity. Qed.

Example checkPin2_wrong_pin :
  fst (checkPin2 Demo.bob_ai (Demo.login_node "c2" "app" None None [])
         "0000" Demo.world0) = Ok false.
Proof. vm_compute. reflexivity. Qed.

Lemma pin2Id_normalized_witness :
  pin2Id Demo.bob_key "Bob" = pin2Id Demo.bob_key "bob".
Proof. apply pin2Id_normalized; reflexivity. Defined.

Lemma loginPin2_spec_witness :
  exists pin2Key decryptReply,
    stash_pin2Key (fields Demo.second_child) = Some pin2Key /\
    loginPin2 Demo.bob_ai "app" "Bob" "1234" tt
    = serverLogin Demo.bob_ai Demo.bob_stash Demo.second_child tt
        {| req_pin2Id := Some (pin2Key ++ list_byte_of_string "bob");
           req_pin2Auth := Some (pin2Key ++ list_byte_of_string "1234");
           req_otp := None |}
        decryptReply /\
    decryptReply {| reply_pin2Box := None |} = Throw MissingData.
Proof.
  destruct (proj2 (loginPin2_spec Demo.bob_ai "app" "Bob" "1234" tt
                     (Demo.world0 : @World _ Demo.io))
              Demo.second_child eq_refl)
    as (pin2Key & decryptReply & Hkey & Hcall & Hmissing & _).
  exists pin2Key, decryptReply.
  split; [exact Hkey|]. split; [exact Hcall|].
  apply Hmissing. reflexivity.
Defined.

Lemma changePin_policy_witness :
  changePin Demo.bob_ai "account0" None (Some true)
  = ret (Throw PinRequiredToEnable).
Proof.
  destruct (changePin_policy Demo.bob_ai "account0"
              {| acct_loginTree := Demo.bob_tree; acct_username := "Bob" |}
              None (Some true) eq_refl)
    as (_ & _ & _ & _ & Hthrow & _).
  apply Hthrow; reflexivity.
Defined.

Example changePin_disable_without_pin :
  changePin Demo.bob_ai "account0" None (Some false)
  = applyKits Demo.bob_ai Demo.bob_tree (makeDeletePin2Kits Demo.bob_tree).
Proof. reflexivity. Qed.

(** A whole run: a first PIN is set on an account that has none cached,
    so login by PIN is switched on and every node learns the pin. *)
Example changePin_first_pin :
  let (settled, w) :=
    changePin Demo.bob_ai "account0" (Some "1234") None Demo.world0 in
  settled = Ok tt /\
  map (fun node => login_pin (fields node))
      (preorder (KitEngine.loginTree (Demo.stores w)))
  = [Some "1234"; Some "1234"; Some "1234"] /\
  map (fun node => not_null (stash_pin2Key (fields node)))
      (preorder (KitEngine.stashTree (Demo.stores w)))
  = [true; true; true] /\
  List.length (KitEngine.sent (Demo.stores w)) = 3.
Proof. vm_compute. repeat split; reflexivity. Qed.

Lemma makeChangePin2Kits_enable_witness :
  Forall2
    (fun login kit =>
       kit_loginId kit = login_loginId (fields login) /\
       lp_pin (kit_login kit) = Assign (Some "1234") /\
       match login_pin2Key (fields login) with
       | Some existing => lp_pin2Key (kit_login kit) = Assign (Some existing)
       | None => True
       end)
    (preorder Demo.bob_tree)
    (fst (makeChangePin2Kits Demo.bob_tree "Bob" "1234" true Demo.world0)).
Proof.
  eapply Forall2_impl.
  - apply (proj2 (makeChangePin2Kits_enable
             (H := Demo.crypto) (H0 := Demo.io) (H1 := Demo.cleaners)
             (H2 := Demo.env)
             (fun n (w : Demo.DemoWorld) =>
                repeat_length (byte_of_ascii (ascii_of_nat (Demo.draws w))) n)
             Demo.bob_tree "Bob" "1234" Demo.world0)).
  - intros login kit (key & box & keyBox & textBox & -> & Hkey & _).
    cbn [kit_loginId kit_login lp_pin lp_pin2Key].
    split; [reflexivity|]. split; [reflexivity|].
    destruct (login_pin2Key (fields login)); [rewrite Hkey; reflexivity|exact I].
Defined.

Example makeChangePin2Kits_three_kits :
  map kit_loginId
      (fst (makeChangePin2Kits Demo.bob_tree "Bob" "1234" true Demo.world0))
  = ["root"; "c1"; "c2"] /\
  map (fun kit => lp_pin2Key (kit_login kit))
      (fst (makeChangePin2Kits Demo.bob_tree "Bob" "1234" true Demo.world0))
  = [Assign (Some (repeat x01 32));
     Assign (Some Demo.bob_key);
     Assign (Some (repeat x08 32))].
Proof. split; vm_compute; reflexivity. Qed.

Lemma makeDeletePin2Kits_spec_witness :
  makeDeletePin2Kits Demo.bare_tree = makeDeletePin2Kits Demo.bob_tree.
Proof.
  apply (proj2 (makeDeletePin2Kits_spec Demo.bob_tree)).
  reflexivity.
Defined.

Lemma applyKits_partial_failure_witness :
  KitEngine.applyKits Demo.respond (makeDeletePin2Kits Demo.locked_tree)
    Demo.locked_stores
  = (Throw (Error "Conflict"),
     {| KitEngine.sent :=
          map KitEngine.kitRequest
            [makeDeletePin2Kit Demo.locked_tree;
             makeDeletePin2Kit
               (Demo.login_node "locked" "wallet" None (Some Demo.bob_key) [])];
        KitEngine.stashTree :=
          Demo.stash_node "root" "" None
            [Demo.stash_node "locked" "wallet" (Some Demo.bob_key) [];
             Demo.stash_node "c2" "app" (Some Demo.bob_key) []];
        KitEngine.loginTree := Demo.locked_tree |}).
Proof.
  exact (applyKits_partial_failure Demo.respond
           [makeDeletePin2Kit Demo.locked_tree]
           [makeDeletePin2Kit (Demo.login_node "c2" "app" None None [])]
           (makeDeletePin2Kit
              (Demo.login_node "locked" "wallet" None (Some Demo.bob_key) []))
           Demo.locked_stores (Error "Conflict") eq_refl eq_refl).
Defined.

Lemma validateServer_accepts_witness :
  exists e,
    makeContext tt tt
      {| opt_apiKey := Some "key"; opt_appId := None;
         opt_authServer := Some "https://edge.app.example.com/api" |} 0
    = (Throw e, 0).
Proof.
  refine (proj2 (proj2
            (@validateServer_accepts Demo.root
               "https://edge.app.example.com/api"))
            tt tt
            {| opt_apiKey := Some "key"; opt_appId := None;
               opt_authServer := Some "https://edge.app.example.com/api" |}
            0 eq_refl _).
  vm_compute. discriminate.
Defined.

Example validateServer_default :
  validateServer "https://login.edge.app/api" = Ok tt /\
  validateServer "https://edgetest.app" = Ok tt /\
  validateServer "http://localhost/api" = Ok tt /\
  validateServer "http://login.edge.app/api" =
    Throw (Error "Only *.edge.app or localhost are valid login domain names, not login.edge.app") /\
  validateServer "https://.edge.app/" =
    Throw (Error "Only *.edge.app or localhost are valid login domain names, not .edge.app").
Proof. repeat split; vm_compute; reflexivity. Qed.

End Pin2Demo.

(** * Further properties of [pin2.js] *)

Section MorePin2Facts.
Context `{!Crypto} `{!Io} `{!ServerCleaners} `{!LoginEnv} `{!LoginNet}.

Lemma preorder_head {A} (t : Tree A) : In t (preorder t).
Proof. destruct t. left. reflexivity. Qed.

(** X1: a node returned by [findPin2Stash] is a node of the stash tree
    it was given, it carries a [pin2Key], and it is either the root or a
    node of the requested [appId]. *)
Theorem findPin2Stash_sound (stashTree stash : LoginStash) (appId : string) :
  findPin2Stash stashTree appId = Some stash ->
  In stash (preorder stashTree) /\
  stash_pin2Key (fields stash) <> None /\
  (stash = stashTree \/ stash_appId (fields stash) = appId).
Proof.
  intros Hfind.
  destruct (findPin2Stash_has_key _ _ _ Hfind) as [key Hkey].
  assert (Hnot : stash_pin2Key (fields stash) <> None) by congruence.
  revert Hfind. unfold findPin2Stash.
  destruct (stash_pin2Key (fields stashTree)).
  - intros [= <-]. split; [apply preorder_head|]. split; [exact Hnot|].
    left. reflexivity.
  - rewrite searchTree_preorder.
    destruct (find _ (preorder stashTree)) as [found|] eqn:Hsearch;
      [|discriminate].
    apply find_some in Hsearch as [Hin Happ].
    destruct (stash_pin2Key (fields found)); [|discriminate].
    intros [= <-]. apply String.eqb_eq in Happ.
    split; [exact Hin|]. split; [exact Hnot|]. right. exact Happ.
Qed.

Lemma findPin2Stash_no_key (stashTree : LoginStash) (appId : string) :
  Forall (fun node => stash_pin2Key (fields node) = None)
         (preorder stashTree) ->
  findPin2Stash stashTree appId = None.
Proof.
  intros Hnone.
  destruct (findPin2Stash stashTree appId) as [stash|] eqn:Hfind;
    [|reflexivity].
  destruct (findPin2Stash_has_key _ _ _ Hfind) as [key Hkey].
  revert Hfind. unfold findPin2Stash.
  rewrite List.Forall_forall in Hnone.
  rewrite (Hnone stashTree (preorder_head stashTree)).
  rewrite searchTree_preorder.
  destruct (find _ (preorder stashTree)) as [found|] eqn:Hsearch;
    [|discriminate].
  apply find_some in Hsearch as [Hin _].
  rewrite (Hnone found Hin). discriminate.
Qed.

(** X2: on a device whose stash for the user holds no [pin2Key] at all,
    whatever the app: [findPin2Stash] finds nothing, [loginPin2] fails
    with "PIN login is not enabled..." and [checkPin2], for a login of
    that user, rejects with "No PIN set locally..."; neither reaches the
    network nor changes the world. *)
Theorem no_pin2Key_on_device (ai : ApiInput) (username appId pin : string)
    (login : LoginTree) (opts : EdgeAccountOptions) (w : World) :
  Forall (fun node => stash_pin2Key (fields node) = None)
         (preorder (getStash ai username)) ->
  findPin2Stash (getStash ai username) appId = None /\
  loginPin2 ai appId username pin opts w = (Throw NotEnabled, w) /\
  (login_username (fields login) = Some username ->
   checkPin2 ai login pin w =
   (Throw (Error "No PIN set locally for this account"), w)).
Proof.
  intros Hnone. split; [|split].
  - apply findPin2Stash_no_key, Hnone.
  - unfold loginPin2. rewrite (findPin2Stash_no_key _ appId Hnone).
    reflexivity.
  - intros Huser. unfold checkPin2. rewrite Huser.
    rewrite (findPin2Stash_no_key _ _ Hnone). reflexivity.
Qed.

(** X3: when the device holds a credential for the login, [checkPin2]
    posts to [/v2/login] the very [pin2Id] and [pin2Auth] that [loginPin2]
    hands to [serverLogin] for the same user, app and pin, adding only the
    login's OTP; its answer is whether that one request succeeded. *)
Theorem checkPin2_same_proof (ai : ApiInput) (login : LoginTree)
    (username pin : string) (opts : EdgeAccountOptions) (stash : LoginStash)
    (w : World) :
  login_username (fields login) = Some username ->
  findPin2Stash (getStash ai username) (login_appId (fields login))
  = Some stash ->
  exists (request : LoginRequestBody)
         (decryptReply : LoginPayload -> Result bytes),
    loginPin2 ai (login_appId (fields login)) username pin opts
    = serverLogin ai (getStash ai username) stash opts request decryptReply
    /\ req_otp request = None
    /\ checkPin2 ai login pin w =
       (let settled :=
          loginFetch ai "POST" "/v2/login"
            {| req_pin2Id := req_pin2Id request;
               req_pin2Auth := req_pin2Auth request;
               req_otp := getLoginOtp login |} w in
        (Ok (is_ok (fst settled)), snd settled)).
Proof.
  intros Huser Hfind.
  destruct (findPin2Stash_has_key _ _ _ Hfind) as [key Hkey].
  eexists. eexists. split; [|split].
  - unfold loginPin2. rewrite Hfind, Hkey. reflexivity.
  - reflexivity.
  - unfold checkPin2. rewrite Huser, Hfind, Hkey. cbv zeta. unfold bind.
    cbn [req_pin2Id req_pin2Auth].
    destruct (loginFetch _ _ _ _ w) as [[good|bad] w']; reflexivity.
Qed.

(** X4: [changePin] with a new pin and no [enableLogin] takes one flag
    from the root of the tree alone (whether the root has a [pin2Key] when
    the root has a cached pin, true when it has none) and builds the kit
    of every node with it.  So when the root has a cached pin and no
    [pin2Key], every node gets a disabling kit, a sub-account with a
    [pin2Key] of its own included: its patches clear that key and its
    server body carries no [pin2Id], [pin2Auth] or [pin2Box]. *)
Theorem changePin_flag_from_root (ai : ApiInput) (accountId : string)
    (account : AccountState) (newPin : string) :
  accounts ai !! accountId = Some account ->
  changePin ai accountId (Some newPin) None =
  (kits <- makeChangePin2Kits (acct_loginTree account) (acct_username account)
             newPin
             match login_pin (fields (acct_loginTree account)) with
             | Some _ => not_null (login_pin2Key (fields (acct_loginTree account)))
             | None => true
             end;;
   applyKits ai (acct_loginTree account) kits)
  /\ (login_pin (fields (acct_loginTree account)) <> None ->
      login_pin2Key (fields (acct_loginTree account)) = None ->
      forall w, exists kits w',
        changePin ai accountId (Some newPin) None w
        = applyKits ai (acct_loginTree account) kits w' /\
        Forall2
          (fun node kit =>
             kit_loginId kit = login_loginId (fields node) /\
             lp_pin2Key (kit_login kit) = Assign None /\
             sp_pin2Key (kit_stash kit) = Assign None /\
             exists body,
               kit_server kit = Some body /\
               json_pin2Id body = None /\
               json_pin2Auth body = None /\
               json_pin2Box body = None)
          (preorder (acct_loginTree account)) kits).
Proof.
  intros Haccount.
  assert (Hflag : changePin ai accountId (Some newPin) None =
    (kits <- makeChangePin2Kits (acct_loginTree account)
               (acct_username account) newPin
               match login_pin (fields (acct_loginTree account)) with
               | Some _ =>
                   not_null (login_pin2Key (fields (acct_loginTree account)))
               | None => true
               end;;
     applyKits ai (acct_loginTree account) kits)).
  { unfold changePin. rewrite Haccount. unfold is_null.
    destruct (login_pin (fields (acct_loginTree account)));
      destruct (login_pin2Key (fields (acct_loginTree account)));
      reflexivity. }
  split; [exact Hflag|].
  intros Hpin Hkey w. rewrite Hflag, Hkey.
  destruct (login_pin (fields (acct_loginTree account))); [|congruence].
  cbn [not_null]. unfold bind.
  destruct (makeChangePin2Kits (acct_loginTree account)
              (acct_username account) newPin false w) as [kits w'] eqn:Hkits.
  exists kits, w'. split; [reflexivity|].
  replace kits with
    (fst (makeChangePin2Kits (acct_loginTree account)
            (acct_username account) newPin false w))
    by (rewrite Hkits; reflexivity).
  rewrite makeChangePin2Kits_preorder. apply mapM_Forall2.
  intros node w0. unfold makeChangePin2Kit, bind, ret.
  destruct (encrypt _ _ w0) as [textBox w1]. cbn.
  repeat (split; [reflexivity|]).
  eexists. repeat split; reflexivity.
Qed.

(** X5: switching PIN login off without a pin, on an account with no
    cached pin, is [deletePin]: [changePin(ai, id, undefined, false)], or
    [changePin(ai, id)] when the tree has no [pin2Key] either, does what
    [deletePin(ai, id)] does, a missing account included. *)
Theorem changePin_disable_is_deletePin (ai : ApiInput) (accountId : string)
    (enableLogin : option bool) :
  (forall account,
     accounts ai !! accountId = Some account ->
     login_pin (fields (acct_loginTree account)) = None /\
     (enableLogin = Some false \/
      (enableLogin = None /\
       login_pin2Key (fields (acct_loginTree account)) = None))) ->
  changePin ai accountId None enableLogin = deletePin ai accountId.
Proof.
  intros Hacc. unfold changePin, deletePin.
  destruct (accounts ai !! accountId) as [account|]; [|reflexivity].
  destruct (Hacc account eq_refl) as [Hpin [-> | [-> Hkey]]].
  - rewrite Hpin. reflexivity.
  - rewrite Hpin, Hkey. reflexivity.
Qed.

(** X8: for an account of the store, [changePin] either fails before it
    builds anything, with the world untouched, or hands [applyKits]
    exactly one kit per node of the account's tree, in pre-order, every
    one of them for the path [/v2/login/pin2]. *)
Theorem changePin_kits_cover_tree (ai : ApiInput) (accountId : string)
    (account : AccountState) (pin : option string)
    (enableLogin : option bool) (w : World) :
  accounts ai !! accountId = Some account ->
  changePin ai accountId pin enableLogin w = (Throw PinRequiredToEnable, w) \/
  exists kits w',
    changePin ai accountId pin enableLogin w
    = applyKits ai (acct_loginTree account) kits w' /\
    map kit_loginId kits
    = map (fun node => login_loginId (fields node))
          (preorder (acct_loginTree account)) /\
    Forall (fun kit => kit_serverPath kit = "/v2/login/pin2") kits.
Proof.
  intros Haccount. unfold changePin. rewrite Haccount.
  set (tree := acct_loginTree account).
  set (enable := match enableLogin with Some e => e | None => _ end).
  destruct (match pin with Some p => Some p | None => login_pin (fields tree) end)
    as [known|].
  - right. unfold bind.
    destruct (makeChangePin2Kits tree (acct_username account) known enable w)
      as [kits w'] eqn:Hkits.
    exists kits, w'. split; [reflexivity|].
    assert (Hall : Forall2
      (fun node kit =>
         kit_loginId kit = login_loginId (fields node) /\
         kit_serverPath kit = "/v2/login/pin2")
      (preorder tree) kits).
    { replace kits with
        (fst (makeChangePin2Kits tree (acct_username account) known enable w))
        by (rewrite Hkits; reflexivity).
      rewrite makeChangePin2Kits_preorder. apply mapM_Forall2.
      intros node w0. unfold makeChangePin2Kit, bind, ret.
      destruct (encrypt _ _ w0) as [textBox w1].
      destruct enable; [|split; reflexivity].
      destruct (login_pin2Key (fields node)) as [key|].
      - destruct (encrypt _ key w1) as [box w2].
        destruct (encrypt key _ w2) as [keyBox w3]. split; reflexivity.
      - destruct (random 32 w1) as [key wk].
        destruct (encrypt _ key wk) as [box w2].
        destruct (encrypt key _ w2) as [keyBox w3]. split; reflexivity. }
    clear Hkits. induction Hall as [|node kit nodes kits' [Hid Hpath] _ [IH1 IH2]].
    + split; constructor.
    + split; [cbn [map]; rewrite Hid, IH1; reflexivity|].
      constructor; assumption.
  - destruct enable; [left; reflexivity|]. right.
    exists (makeDeletePin2Kits tree), w. split; [reflexivity|].
    rewrite makeDeletePin2Kits_preorder, map_map. split; [reflexivity|].
    apply List.Forall_forall. intros kit Hin.
    apply in_map_iff in Hin as (node & <- & _). reflexivity.
Qed.

(** X6: with boxes that open under the key that closed them, what an
    enabling kit stores can be read back: the [pin2Box] it uploads opens,
    under the [pin2Key] it writes to the stash and to the tree, to the
    node's [loginKey] (the decrypt step of [loginPin2]); its [pin2KeyBox]
    opens under the [loginKey] to that [pin2Key]; and the [pin2TextBox] it
    writes to the stash opens under the [loginKey] to the pin. *)
Theorem enabling_kits_open
    (box_law : forall data key w,
        decrypt (fst (encrypt data key w)) key = Ok data)
    (loginTree : LoginTree) (username pin : string) (w : World) :
  Forall2
    (fun login kit =>
       exists (pin2Key : bytes) (pin2Box pin2KeyBox pin2TextBox : EdgeBox),
         sp_pin2Key (kit_stash kit) = Assign (Some pin2Key)
         /\ lp_pin2Key (kit_login kit) = Assign (Some pin2Key)
         /\ sp_pin2TextBox (kit_stash kit) = Assign (Some pin2TextBox)
         /\ (exists body,
               kit_server kit = Some body /\
               json_pin2Box body = Some (wasEdgeBox pin2Box) /\
               json_pin2KeyBox body = Some (wasEdgeBox pin2KeyBox) /\
               json_pin2TextBox body = Some (wasEdgeBox pin2TextBox))
         /\ decrypt pin2Box pin2Key = Ok (login_loginKey (fields login))
         /\ decrypt pin2KeyBox (login_loginKey (fields login)) = Ok pin2Key
         /\ decrypt pin2TextBox (login_loginKey (fields login))
            = Ok (utf8_parse pin))
    (preorder loginTree)
    (fst (makeChangePin2Kits loginTree username pin true w)).
Proof.
  rewrite makeChangePin2Kits_preorder.
  apply mapM_Forall2. clear w. intros login w.
  unfold makeChangePin2Kit, bind, ret.
  pose proof (box_law (utf8_parse pin) (login_loginKey (fields login)) w)
    as Htext.
  destruct (encrypt (utf8_parse pin) (login_loginKey (fields login)) w)
    as [textBox w1].
  assert (Hrest : forall key wk,
    let '(box, w2) := encrypt (login_loginKey (fields login)) key wk in
    let '(keyBox, w3) := encrypt key (login_loginKey (fields login)) w2 in
    decrypt box key = Ok (login_loginKey (fields login)) /\
    decrypt keyBox (login_loginKey (fields login)) = Ok key).
  { intros key wk.
    pose proof (box_law (login_loginKey (fields login)) key wk) as Hbox.
    destruct (encrypt (login_loginKey (fields login)) key wk) as [box w2].
    pose proof (box_law key (login_loginKey (fields login)) w2) as HkeyBox.
    destruct (encrypt key (login_loginKey (fields login)) w2) as [keyBox w3].
    auto. }
  destruct (login_pin2Key (fields login)) as [existing|].
  - specialize (Hrest existing w1).
    destruct (encrypt (login_loginKey (fields login)) existing w1)
      as [box w2].
    destruct (encrypt existing (login_loginKey (fields login)) w2)
      as [keyBox w3].
    destruct Hrest as [Hbox HkeyBox].
    exists existing, box, keyBox, textBox. cbn.
    repeat (split; [reflexivity|]).
    split; [eexists; repeat split; reflexivity|]. auto.
  - destruct (random 32 w1) as [key wk]. specialize (Hrest key wk).
    destruct (encrypt (login_loginKey (fields login)) key wk) as [box w2].
    destruct (encrypt key (login_loginKey (fields login)) w2)
      as [keyBox w3].
    destruct Hrest as [Hbox HkeyBox].
    exists key, box, keyBox, textBox. cbn.
    repeat (split; [reflexivity|]).
    split; [eexists; repeat split; reflexivity|]. auto.
Qed.

End MorePin2Facts.

(** * Further properties of [root.js] *)

Section MoreRootFacts.
Context `{!RootEnv}.
Import Re.

Lemma list_ascii_of_string_app (a b : string) :
  list_ascii_of_string (a +:+ b)
  = list_ascii_of_string a ++ list_ascii_of_string b.
Proof.
  induction a as [|c a IH]; [reflexivity|].
  change (c :: list_ascii_of_string (a +:+ b)
          = c :: (list_ascii_of_string a ++ list_ascii_of_string b)).
  rewrite IH. reflexivity.
Qed.

Lemma string_of_list_ascii_app (a b : list ascii) :
  string_of_list_ascii (a ++ b)
  = string_of_list_ascii a +:+ string_of_list_ascii b.
Proof.
  induction a as [|c a IH]; [reflexivity|].
  change (String c (string_of_list_ascii (a ++ b))
          = String c (string_of_list_ascii a +:+ string_of_list_ascii b)).
  rewrite IH. reflexivity.
Qed.

(** What an accepted server looks like, in terms of the pattern. *)
Lemma validateServer_ok_inv (server : string) :
  validateServer server = Ok tt ->
  exists url,
    new_URL server = Ok url /\
    ((hostname url = "localhost" /\
      (protocol url = "http:" \/ protocol url = "https:")) \/
     (protocol url = "https:" /\
      test edge_host_pattern (hostname url) = true)).
Proof.
  unfold validateServer.
  destruct (new_URL server) as [url|e]; [|discriminate].
  intros Hok. exists url. split; [reflexivity|].
  destruct (String.eqb (protocol url) "http:") eqn:Hhttp;
    destruct (String.eqb (hostname url) "localhost") eqn:Hlocal;
    destruct (String.eqb (protocol url) "https:") eqn:Hhttps;
    destruct (test edge_host_pattern (hostname url)) eqn:Hmatch;
    try discriminate Hok;
    rewrite ?String.eqb_eq in *; auto.
Qed.

Lemma dotted_labels_end (labels : list (list ascii)) :
  labels <> [] ->
  exists before,
    List.concat (map (fun label => label ++ ["."%char]) labels)
    = before ++ ["."%char].
Proof.
  induction labels as [|label labels IH]; [contradiction|]. intros _.
  destruct labels as [|next labels].
  - exists label. cbn. rewrite app_nil_r. reflexivity.
  - destruct IH as [before Hbefore]; [discriminate|].
    exists (label ++ ["."%char] ++ before).
    cbn [map List.concat] in *. rewrite Hbefore, <- !app_assoc. reflexivity.
Qed.

(** X9: a server that [validateServer] accepts and that is not
    [localhost] is reached over [https:] and its hostname is [edge.app]
    or [edgetest.app] itself or ends in [.edge.app] or [.edgetest.app]:
    the name is anchored at a label boundary, so neither a longer
    registrable name ([notedge.app]) nor a longer suffix
    ([edge.app.example.com]) gets through. *)
Theorem validateServer_host_anchored (server : string) :
  validateServer server = Ok tt ->
  exists url,
    new_URL server = Ok url /\
    (hostname url = "localhost" \/
     (protocol url = "https:" /\
      exists prefix base,
        (base = "edge.app" \/ base = "edgetest.app") /\
        hostname url = prefix +:+ base /\
        (prefix = "" \/ exists before, prefix = before +:+ "."))).
Proof.
  intros Hok.
  destruct (validateServer_ok_inv server Hok) as (url & Hurl & Hwhy).
  exists url. split; [exact Hurl|].
  destruct Hwhy as [[Hlocal _] | [Hhttps Hmatch]]; [left; exact Hlocal|].
  right. split; [exact Hhttps|].
  apply test_edge_host_pattern in Hmatch
    as (labels & base & Hlabels & Hbase & Hhost).
  exists (string_of_list_ascii
            (List.concat (map (fun label => label ++ ["."%char]) labels))),
         base.
  split; [exact Hbase|]. split.
  - rewrite <- (string_of_list_ascii_of_string (hostname url)), Hhost.
    rewrite string_of_list_ascii_app, string_of_list_ascii_of_string.
    reflexivity.
  - destruct labels as [|label labels]; [left; reflexivity|]. right.
    destruct (dotted_labels_end (label :: labels)) as [before ->];
      [discriminate|].
    exists (string_of_list_ascii before).
    rewrite string_of_list_ascii_app. reflexivity.
Qed.

(** X11: the pattern of [validateServer] is closed under subdomains: a
    non-empty label of letters, digits, underscores and hyphens, put with
    a dot in front of a hostname the pattern accepts, gives a hostname
    the pattern accepts. *)
Theorem edge_host_subdomain (label host : string) :
  label <> "" ->
  forallb is_word_or_hyphen (list_ascii_of_string label) = true ->
  test edge_host_pattern host = true ->
  test edge_host_pattern (label +:+ "." +:+ host) = true.
Proof.
  intros Hne Hchars Hhost.
  apply test_edge_host_pattern in Hhost
    as (labels & base & Hlabels & Hbase & Hhost).
  apply test_edge_host_pattern.
  exists (list_ascii_of_string label :: labels), base.
  split; [|split; [exact Hbase|]].
  - constructor; [|exact Hlabels]. split; [|exact Hchars].
    destruct label; [contradiction | discriminate].
  - rewrite !list_ascii_of_string_app, Hhost. cbn [map List.concat].
    rewrite <- !app_assoc. reflexivity.
Qed.

(** X12: if the platform reads the built-in default
    [https://login.edge.app/api] as an [https:] URL of host
    [login.edge.app], then [makeContext] with an API key and no
    [authServer] passes the validation and starts the core on that
    default server, with [appId] defaulting to the empty string. *)
Theorem makeContext_default_server (ios : PluginIos) (logBackend : LogBackend)
    (opts : EdgeContextOptions) (apiKey : string) (url : URL)
    (w : RootWorld) :
  new_URL "https://login.edge.app/api" = Ok url ->
  protocol url = "https:" ->
  hostname url = "login.edge.app" ->
  opt_apiKey opts = Some apiKey ->
  opt_authServer opts = None ->
  makeContext ios logBackend opts w =
  startCore ios logBackend apiKey (default "" (opt_appId opts))
    "https://login.edge.app/api" w.
Proof.
  intros Hurl Hproto Hhost Hkey Hserver.
  unfold makeContext, validateServer.
  rewrite Hkey, Hserver. cbn [default]. rewrite Hurl, Hproto, Hhost.
  reflexivity.
Qed.

Lemma word_not_dot (c : ascii) :
  is_word_or_hyphen c = true -> c <> "."%char.
Proof. intros Hc ->. discriminate Hc. Qed.

Lemma label_then_dot (label s before rest : list ascii) :
  Forall (fun c => c <> "."%char) label ->
  label ++ "."%char :: s = before ++ "."%char :: "."%char :: rest ->
  (exists rest', s = "."%char :: rest') \/
  (exists before', s = before' ++ "."%char :: "."%char :: rest).
Proof.
  intros Hlabel. revert before.
  induction Hlabel as [|c label Hc _ IH]; intros before Heq.
  - destruct before as [|c' before]; cbn [app] in Heq.
    + injection Heq as ->. eauto.
    + injection Heq as _ ->. eauto.
  - destruct before as [|c' before]; cbn [app] in Heq.
    + injection Heq as -> _. contradiction.
    + injection Heq as _ Heq. eauto.
Qed.

(** Labels without dots, each closed by a dot, and a last label: such a
    name has only label characters and dots, and no empty label. *)
Lemma dotted_name_shape (labels : list (list ascii)) (last : list ascii) :
  Forall (fun label =>
            label <> [] /\ forallb is_word_or_hyphen label = true) labels ->
  last <> [] ->
  forallb is_word_or_hyphen last = true ->
  let name :=
    List.concat (map (fun label => label ++ ["."%char]) labels) ++ last in
  Forall (fun c => is_word_or_hyphen c = true \/ c = "."%char) name /\
  (forall rest, name <> "."%char :: rest) /\
  (forall before rest, name <> before ++ "."%char :: "."%char :: rest).
Proof.
  intros Hlabels Hlast Hchars. cbv zeta.
  assert (Hdots : forall l, forallb is_word_or_hyphen l = true ->
                            Forall (fun c => c <> "."%char) l).
  { intros l Hl. apply List.Forall_forall. intros c Hc.
    apply word_not_dot. exact (proj1 (forallb_forall _ _) Hl c Hc). }
  assert (Hwords : forall l, forallb is_word_or_hyphen l = true ->
            Forall (fun c => is_word_or_hyphen c = true \/ c = "."%char) l).
  { intros l Hl. apply List.Forall_forall. intros c Hc. left.
    exact (proj1 (forallb_forall _ _) Hl c Hc). }
  induction Hlabels as [|label labels [Hne Hlabel] _ (IHchars & IHhead & IHdots)];
    cbn [map List.concat app].
  - split; [apply Hwords, Hchars|]. split.
    + intros rest ->. apply Hdots in Hchars.
      inversion Hchars; subst. congruence.
    + intros before rest ->. apply Hdots in Hchars.
      rewrite List.Forall_forall in Hchars.
      apply (Hchars "."%char); [|reflexivity].
      apply in_or_app. right. left. reflexivity.
  - rewrite <- !app_assoc. cbn [app]. split; [|split].
    + apply Forall_app. split; [apply Hwords, Hlabel|].
      constructor; [right; reflexivity | exact IHchars].
    + intros rest Heq. destruct label as [|c label]; [contradiction|].
      cbn [app] in Heq. injection Heq as -> _.
      cbn [forallb] in Hlabel. discriminate Hlabel.
    + intros before rest Heq.
      apply label_then_dot in Heq as [[rest' Hhead] | [before' Hdouble]];
        [ exact (IHhead _ Hhead) | exact (IHdots _ _ Hdouble)
        | apply Hdots, Hlabel ].
Qed.

(** X10: the hostname of a server that [validateServer] accepts is made
    of letters, digits, underscores, hyphens and dots only, does not
    start with a dot and has no two dots in a row: no character that
    could open a path, a port or a user part, and no empty label. *)
Theorem validateServer_host_charset (server : string) (url : URL) :
  validateServer server = Ok tt ->
  new_URL server = Ok url ->
  let host := list_ascii_of_string (hostname url) in
  Forall (fun c => is_word_or_hyphen c = true \/ c = "."%char) host /\
  (forall rest, host <> "."%char :: rest) /\
  (forall before rest, host <> before ++ "."%char :: "."%char :: rest).
Proof.
  intros Hok Hurl.
  destruct (validateServer_ok_inv server Hok) as (url' & Hurl' & Hwhy).
  assert (url' = url) as -> by congruence.
  destruct Hwhy as [[-> _] | [_ Hmatch]].
  - exact (dotted_name_shape [] (list_ascii_of_string "localhost")
             (List.Forall_nil _) ltac:(discriminate) eq_refl).
  - apply test_edge_host_pattern in Hmatch
      as (labels & base & Hlabels & Hbase & Hhost).
    cbv zeta. rewrite Hhost.
    assert (Hsplit : exists last,
      (last <> [] /\ forallb is_word_or_hyphen last = true) /\
      list_ascii_of_string base
      = last ++ "."%char :: list_ascii_of_string "app").
    { destruct Hbase as [-> | ->];
        [ exists (list_ascii_of_string "edge")
        | exists (list_ascii_of_string "edgetest") ];
        (split; [split; [discriminate | reflexivity] | reflexivity]). }
    destruct Hsplit as (last & Hlast & ->).
    pose proof (dotted_name_shape (labels ++ [last])
                  (list_ascii_of_string "app")) as Hshape.
    cbv zeta in Hshape.
    rewrite map_app, concat_app in Hshape. cbn [map List.concat] in Hshape.
    rewrite app_nil_r, <- !app_assoc in Hshape. cbn [app] in Hshape.
    apply Hshape; [|discriminate|reflexivity].
    apply Forall_app. split; [exact Hlabels|]. constructor; [exact Hlast|].
    constructor.
Qed.

End MoreRootFacts.

(** X13: the identifier and the proof are the same keyed hash with no
    separation between them: the [pin2Auth] of a pin that equals the
    normalized username is the [pin2Id] of that user. *)
Theorem pin2Auth_of_username_is_pin2Id `{!Crypto} `{!LoginEnv}
    (pin2Key : bytes) (username : string) :
  pin2Auth pin2Key (fixUsername username) = pin2Id pin2Key username.
Proof. reflexivity. Qed.

(** ** The further properties, on the small world *)

Section MoreDemo.
#[local] Existing Instances
  Demo.crypto Demo.io Demo.cleaners Demo.env Demo.net Demo.root.

Lemma same_bytes_refl (a : bytes) : Demo.same_bytes a a = true.
Proof.
  induction a as [|x a IH]; [reflexivity|].
  cbn [Demo.same_bytes]. rewrite IH, (@Byte.byte_dec_lb x x eq_refl).
  reflexivity.
Qed.

Lemma demo_box_law (data key : bytes) (w : Demo.DemoWorld) :
  @decrypt Demo.crypto (fst (@encrypt Demo.crypto Demo.io data key w)) key
  = Ok data.
Proof. cbn. rewrite same_bytes_refl. reflexivity. Qed.

Lemma findPin2Stash_sound_witness :
  In Demo.second_child (preorder Demo.bob_stash) /\
  stash_pin2Key (fields Demo.second_child) <> None /\
  (Demo.second_child = Demo.bob_stash \/
   stash_appId (fields Demo.second_child) = "app").
Proof.
  exact (findPin2Stash_sound Demo.bob_stash Demo.second_child "app" eq_refl).
Defined.

Lemma no_pin2Key_on_device_witness :
  loginPin2 Demo.bob_ai "app" "carol" "1234" tt Demo.world0
  = (Throw NotEnabled, Demo.world0).
Proof.
  refine (proj1 (proj2
    (@no_pin2Key_on_device Demo.crypto Demo.io Demo.cleaners Demo.env Demo.net
       Demo.bob_ai "carol" "app" "1234" Demo.wallet_login tt Demo.world0 _))).
  constructor; [reflexivity | constructor].
Defined.

Lemma checkPin2_same_proof_witness :
  exists (request : LoginRequestBody)
         (decryptReply : LoginPayload -> Result bytes),
    loginPin2 Demo.bob_ai "app" "bob" "1234" tt
    = serverLogin Demo.bob_ai (getStash Demo.bob_ai "bob") Demo.second_child
        tt request decryptReply
    /\ req_otp request = None
    /\ checkPin2 Demo.bob_ai (Demo.login_node "c2" "app" None None [])
         "1234" Demo.world0 =
       (let settled :=
          loginFetch Demo.bob_ai "POST" "/v2/login"
            {| req_pin2Id := req_pin2Id request;
               req_pin2Auth := req_pin2Auth request;
               req_otp := getLoginOtp (Demo.login_node "c2" "app" None None []) |}
            Demo.world0 in
        (Ok (is_ok (fst settled)), snd settled)).
Proof.
  exact (@checkPin2_same_proof
           Demo.crypto Demo.io Demo.cleaners Demo.env Demo.net
           Demo.bob_ai (Demo.login_node "c2" "app" None None [])
           "bob" "1234" tt Demo.second_child Demo.world0
           eq_refl eq_refl).
Defined.

Lemma changePin_flag_from_root_witness :
  exists kits w',
    changePin Demo.alice_ai "account1" (Some "1234") None Demo.world0
    = applyKits Demo.alice_ai Demo.alice_tree kits w' /\
    Forall2
      (fun node kit =>
         kit_loginId kit = login_loginId (fields node) /\
         lp_pin2Key (kit_login kit) = Assign None /\
         sp_pin2Key (kit_stash kit) = Assign None /\
         exists body,
           kit_server kit = Some body /\
           json_pin2Id body = None /\
           json_pin2Auth body = None /\
           json_pin2Box body = None)
      (preorder Demo.alice_tree) kits.
Proof.
  refine (proj2 (@changePin_flag_from_root
                   Demo.crypto Demo.io Demo.cleaners Demo.env Demo.net
                   Demo.alice_ai "account1"
                   {| acct_loginTree := Demo.alice_tree;
                      acct_username := "Alice" |}
                   "1234" eq_refl) _ eq_refl Demo.world0).
  discriminate.
Defined.

Lemma changePin_disable_is_deletePin_witness :
  changePin Demo.bob_ai "account0" None (Some false)
  = deletePin Demo.bob_ai "account0".
Proof.
  apply changePin_disable_is_deletePin.
  intros account Haccount.
  change (Some {| acct_loginTree := Demo.bob_tree; acct_username := "Bob" |}
          = Some account) in Haccount.
  injection Haccount as <-. split; [reflexivity | left; reflexivity].
Defined.

Lemma changePin_kits_cover_tree_witness :
  changePin Demo.bob_ai "account0" (Some "1234") None Demo.world0
  = (Throw PinRequiredToEnable, Demo.world0) \/
  exists kits w',
    changePin Demo.bob_ai "account0" (Some "1234") None Demo.world0
    = applyKits Demo.bob_ai Demo.bob_tree kits w' /\
    map kit_loginId kits
    = map (fun node => login_loginId (fields node)) (preorder Demo.bob_tree) /\
    Forall (fun kit => kit_serverPath kit = "/v2/login/pin2") kits.
Proof.
  exact (@changePin_kits_cover_tree
           Demo.crypto Demo.io Demo.cleaners Demo.env Demo.net
           Demo.bob_ai "account0"
           {| acct_loginTree := Demo.bob_tree; acct_username := "Bob" |}
           (Some "1234") None Demo.world0 eq_refl).
Defined.

Lemma enabling_kits_open_witness :
  Forall2
    (fun login kit =>
       exists pin2Key pin2Box,
         sp_pin2Key (kit_stash kit) = Assign (Some pin2Key) /\
         decrypt pin2Box pin2Key = Ok (login_loginKey (fields login)))
    (preorder Demo.bob_tree)
    (fst (makeChangePin2Kits Demo.bob_tree "Bob" "1234" true Demo.world0)).
Proof.
  eapply Forall2_impl.
  - apply (@enabling_kits_open
             Demo.crypto Demo.io Demo.cleaners Demo.env demo_box_law
             Demo.bob_tree "Bob" "1234" Demo.world0).
  - intros login kit (key & box & _ & _ & Hkey & _ & _ & _ & Hopen & _).
    exists key, box. split; assumption.
Defined.

Lemma validateServer_host_anchored_witness :
  exists url,
    new_URL "https://login.edge.app/api" = Ok url /\
    (hostname url = "localhost" \/
     (protocol url = "https:" /\
      exists prefix base,
        (base = "edge.app" \/ base = "edgetest.app") /\
        hostname url = prefix +:+ base /\
        (prefix = "" \/ exists before, prefix = before +:+ "."))).
Proof.
  apply (@validateServer_host_anchored Demo.root "https://login.edge.app/api").
  reflexivity.
Defined.

Lemma validateServer_host_charset_witness :
  Forall (fun c => is_word_or_hyphen c = true \/ c = "."%char)
         (list_ascii_of_string "login.edge.app").
Proof.
  exact (proj1
    (@validateServer_host_charset Demo.root "https://login.edge.app/api"
       {| protocol := "https:"; hostname := "login.edge.app" |}
       eq_refl eq_refl)).
Defined.

Lemma edge_host_subdomain_witness :
  Re.test edge_host_pattern ("login" +:+ "." +:+ "edge.app") = true.
Proof.
  apply edge_host_subdomain; [discriminate | reflexivity | reflexivity].
Defined.

Lemma makeContext_default_server_witness :
  makeContext tt tt
    {| opt_apiKey := Some "key"; opt_appId := None; opt_authServer := None |}
    0
  = (Ok "https://login.edge.app/api", 1).
Proof.
  exact (@makeContext_default_server Demo.root tt tt
           {| opt_apiKey := Some "key"; opt_appId := None;
              opt_authServer := None |}
           "key" {| protocol := "https:"; hostname := "login.edge.app" |} 0
           eq_refl eq_refl eq_refl eq_refl eq_refl).
Defined.

End MoreDemo.
